(** * WorldleDuel: a shallow embedding of the game client's core logic

    Sources embedded here:
    - [src/renderer/src/lib/utils.ts]: [evaluateGuess], [isValidWord],
      [generateRoomCode];
    - [src/renderer/src/stores/gameStore.ts]: the zustand store (both
      versions concatenated in that file);
    - the game route (unnamed part_000): [submitGuess] and the keyboard
      handler; the lobby route (unnamed part_002): [handleCreateRoom];
    - [GameTimer.tsx]: the duel scoreboard's draw banner;
    - the custom-word input component (end of gameStore.ts): [validateWord]. *)

From Stdlib Require Import List String Ascii Arith ZArith Lia Bool.
From Stdlib Require Import Sorting.Sorted Sorting.Permutation.
Import ListNotations.
Open Scope string_scope.
Open Scope list_scope.
Open Scope nat_scope.

(* ------------------------------------------------------------------ *)
(** ** JavaScript arrays

    A JS array is a list of optional slots: [None] is a hole (reading it,
    or reading past the end, gives [undefined]).  Writing past the end
    extends the array with holes, as JS does. *)

Definition js_get {A} (l : list (option A)) (i : nat) : option A :=
  match nth_error l i with Some x => x | None => None end.

Fixpoint js_set {A} (l : list (option A)) (i : nat) (v : A) : list (option A) :=
  match l, i with
  | [], 0 => [Some v]
  | [], S i' => None :: js_set [] i' v
  | _ :: t, 0 => Some v :: t
  | x :: t, S i' => x :: js_set t i' v
  end.

(** [s.split('')]: one one-character string per character. *)
Definition js_split_chars (l : list ascii) : list (option string) :=
  map (fun a => Some (String a EmptyString)) l.

Definition js_split (s : string) : list (option string) :=
  js_split_chars (list_ascii_of_string s).

(** Strict equality [===] on two array reads ([undefined === undefined]). *)
Definition js_str_eq (x y : option string) : bool :=
  match x, y with
  | Some a, Some b => String.eqb a b
  | None, None => true
  | _, _ => false
  end.

(** [arr.indexOf(v)]: the first index holding [v]; [None] stands for [-1].
    Holes are skipped, so searching for [undefined] finds nothing. *)
Fixpoint js_indexOf (l : list (option string)) (v : option string) : option nat :=
  match v with
  | None => None
  | Some x =>
      match l with
      | [] => None
      | Some y :: t => if String.eqb y x then Some 0
                       else option_map S (js_indexOf t v)
      | None :: t => option_map S (js_indexOf t v)
      end
  end.

(* ------------------------------------------------------------------ *)
(** ** Guess evaluation ([evaluateGuess], utils.ts lines 9-36; the same
    body is repeated in the game route, part_000 lines 60-87) *)

Inductive Verdict := Correct | Present | Absent.

Definition verdict_eqb (a b : Verdict) : bool :=
  match a, b with
  | Correct, Correct | Present, Present | Absent, Absent => true
  | _, _ => false
  end.

(** [evaluation[i] === 'correct'] on a possibly unset slot. *)
Definition is_correct_slot (v : option Verdict) : bool :=
  match v with Some Correct => true | _ => false end.

(** One iteration of the first loop:
    [if (guessArray[i] === solutionArray[i]) { evaluation[i] = 'correct';
    solutionArray[i] = '' }]. *)
Definition first_step (guessArray : list (option string))
    (st : list (option Verdict) * list (option string)) (i : nat)
    : list (option Verdict) * list (option string) :=
  let '(evaluation, solutionArray) := st in
  if js_str_eq (js_get guessArray i) (js_get solutionArray i)
  then (js_set evaluation i Correct, js_set solutionArray i "")
  else (evaluation, solutionArray).

(** One iteration of the second loop. *)
Definition second_step (guessArray : list (option string))
    (st : list (option Verdict) * list (option string)) (i : nat)
    : list (option Verdict) * list (option string) :=
  let '(evaluation, solutionArray) := st in
  if is_correct_slot (js_get evaluation i) then st
  else
    match js_indexOf solutionArray (js_get guessArray i) with
    | Some letterIndex =>
        (js_set evaluation i Present, js_set solutionArray letterIndex "")
    | None => (js_set evaluation i Absent, solutionArray)
    end.

Definition evaluateGuess (guess solution : string) : list (option Verdict) :=
  let solutionArray := js_split solution in
  let guessArray := js_split guess in
  let st1 := fold_left (first_step guessArray) (seq 0 5) ([], solutionArray) in
  fst (fold_left (second_step guessArray) (seq 0 5) st1).

(** *** The two-pass algorithm as the specification words it

    A multiset of letters is a count per letter.  The first pass marks
    [correct] where the letters agree and removes that letter from a copy
    of the solution's multiset; the second pass, left to right, marks every
    other position [present] when its letter is still in the multiset
    (consuming one) and [absent] otherwise. *)

Definition mset := ascii -> nat.

Definition mset_of (l : list ascii) : mset := fun c => count_occ ascii_dec l c.

Definition mset_remove (m : mset) (c : ascii) : mset :=
  fun x => if ascii_dec x c then m x - 1 else m x.

Fixpoint spec_first_pass (gl sl : list ascii) (m : mset) : list bool * mset :=
  match gl, sl with
  | a :: gl', b :: sl' =>
      let '(marks, m') :=
        spec_first_pass gl' sl' (if ascii_dec a b then mset_remove m a else m) in
      ((if ascii_dec a b then true else false) :: marks, m')
  | _, _ => ([], m)
  end.

Fixpoint spec_second_pass (gl : list ascii) (marks : list bool) (m : mset)
    : list Verdict :=
  match gl, marks with
  | a :: gl', c :: marks' =>
      if c then Correct :: spec_second_pass gl' marks' m
      else if Nat.ltb 0 (m a) then Present :: spec_second_pass gl' marks' (mset_remove m a)
      else Absent :: spec_second_pass gl' marks' m
  | _, _ => []
  end.

Definition wordle_two_pass (guess solution : string) : list Verdict :=
  let gl := list_ascii_of_string guess in
  let sl := list_ascii_of_string solution in
  let '(marks, m) := spec_first_pass gl sl (mset_of sl) in
  spec_second_pass gl marks m.

(** Letters of [guess] with letter [c] whose verdict is a hit
    ([correct] or [present]). *)
Definition is_hit (v : option Verdict) : bool :=
  match v with Some Correct | Some Present => true | _ => false end.

Fixpoint hits_of (gl : list ascii) (ev : list (option Verdict)) (c : ascii) : nat :=
  match gl, ev with
  | a :: gl', v :: ev' =>
      (if ascii_dec a c then if is_hit v then 1 else 0 else 0) + hits_of gl' ev' c
  | _, _ => 0
  end.

(** Helpers used in the proofs about [evaluateGuess]: occurrences of a
    string among the slots of an array, the positions where guess and
    solution agree, and the solution array with those positions blanked. *)
Fixpoint cnt (l : list (option string)) (x : string) : nat :=
  match l with
  | [] => 0
  | Some y :: t => (if String.eqb y x then 1 else 0) + cnt t x
  | None :: t => cnt t x
  end.

Definition corr (gl sl : list ascii) (j : nat) : bool :=
  match nth_error gl j, nth_error sl j with
  | Some a, Some b => if ascii_dec a b then true else false
  | _, _ => false
  end.

Fixpoint blank_correct (gl sl : list ascii) : list (option string) :=
  match gl, sl with
  | a :: gl', b :: sl' =>
      (if ascii_dec a b then Some "" else Some (String b EmptyString))
        :: blank_correct gl' sl'
  | _, _ => []
  end.

Fixpoint corr_count (c : ascii) (gl sl : list ascii) : nat :=
  match gl, sl with
  | a :: gl', b :: sl' =>
      (if ascii_dec a b then if ascii_dec a c then 1 else 0 else 0)
        + corr_count c gl' sl'
  | _, _ => 0
  end.

Fixpoint marked_count (c : ascii) (gl : list ascii) (marks : list bool) : nat :=
  match gl, marks with
  | a :: gl', b :: marks' =>
      (if b then if ascii_dec a c then 1 else 0 else 0) + marked_count c gl' marks'
  | _, _ => 0
  end.

(** Positions of [gl] holding letter [c] that the first pass left
    unmarked. *)
Fixpoint unmarked_count (c : ascii) (gl : list ascii) (marks : list bool) : nat :=
  match gl, marks with
  | a :: gl', b :: marks' =>
      (if b then 0 else if ascii_dec a c then 1 else 0) + unmarked_count c gl' marks'
  | _, _ => 0
  end.

(* ------------------------------------------------------------------ *)
(** ** The store (gameStore.ts)

    The file holds two versions of the store one after the other.  The
    second one (lines 130-296) keeps the roster in [currentRoom]; it is the
    one modelled in full.  Of the first one (lines 1-128) only [resetGame]
    is modelled, in [StoreV1] below.  [undefined] optional fields are
    [None]; a JS [number] is a [Z]. *)

Inductive Status := Waiting | Playing | Finished.
Inductive Mode := Duel | BattleRoyale.

Record GuessEntry := { word : string; attempt : Z }.

Record Player := {
  id : string;
  username : string;
  score : Z;
  eliminated : option bool;
  guesses : option (list GuessEntry);
  won : option bool
}.

Record Room := {
  code : string;
  hostId : string;
  players : list Player;
  solutionWord : option string;
  status : Status;
  room_mode : Mode;
  maxPlayers : Z;
  gameStartTime : option Z;
  roundNumber : option Z
}.

Record GameState := {
  currentRoom : option Room;
  currentPlayer : option string;
  isHost : bool;
  gameBoard : list (list string);
  currentGuess : string;
  gameStatus : Status;
  winner : option string;
  mode : Mode;
  eliminatedPlayers : list string;
  activePlayers : list Player
}.

(** [p.eliminated] as a condition: [undefined] is falsy. *)
Definition is_eliminated (p : Player) : bool :=
  match eliminated p with Some true => true | _ => false end.

(** [Partial<Player>]: a field is [None] when the key is absent. *)
Record PlayerUpdate := {
  u_id : option string;
  u_username : option string;
  u_score : option Z;
  u_eliminated : option (option bool);
  u_guesses : option (option (list GuessEntry));
  u_won : option (option bool)
}.

Definition or_keep {A} (o : option A) (x : A) : A :=
  match o with Some y => y | None => x end.

(** [{ ...p, ...updates }] *)
Definition spread_player (p : Player) (u : PlayerUpdate) : Player :=
  {| id := or_keep (u_id u) (id p);
     username := or_keep (u_username u) (username p);
     score := or_keep (u_score u) (score p);
     eliminated := or_keep (u_eliminated u) (eliminated p);
     guesses := or_keep (u_guesses u) (guesses p);
     won := or_keep (u_won u) (won p) |}.

(** [{ ...p, eliminated: true }] *)
Definition with_eliminated (p : Player) : Player :=
  {| id := id p; username := username p; score := score p;
     eliminated := Some true; guesses := guesses p; won := won p |}.

Definition with_players (r : Room) (ps : list Player) : Room :=
  {| code := code r; hostId := hostId r; players := ps;
     solutionWord := solutionWord r; status := status r; room_mode := room_mode r;
     maxPlayers := maxPlayers r; gameStartTime := gameStartTime r;
     roundNumber := roundNumber r |}.

(** [Array(6).fill(null).map(() => Array(5).fill(''))] *)
Definition empty_board : list (list string) := repeat (repeat "" 5) 6.

Definition initialState : GameState :=
  {| currentRoom := None; currentPlayer := None; isHost := false;
     gameBoard := empty_board; currentGuess := ""; gameStatus := Waiting;
     winner := None; mode := Duel; eliminatedPlayers := []; activePlayers := [] |}.

(** [set({...})] merges the given fields into the state.  One merge
    function per shape of [set] call used by the actions. *)
Definition set_room_lists (st : GameState) (r : Room) : GameState :=
  {| currentRoom := Some r; currentPlayer := currentPlayer st; isHost := isHost st;
     gameBoard := gameBoard st; currentGuess := currentGuess st;
     gameStatus := gameStatus st; winner := winner st; mode := mode st;
     activePlayers := filter (fun p => negb (is_eliminated p)) (players r);
     eliminatedPlayers := map id (filter is_eliminated (players r)) |}.

Definition setCurrentRoom (room : Room) (st : GameState) : GameState :=
  {| currentRoom := Some room; currentPlayer := currentPlayer st; isHost := isHost st;
     gameBoard := gameBoard st; currentGuess := currentGuess st;
     mode := room_mode room; gameStatus := status room; winner := winner st;
     activePlayers := filter (fun p => negb (is_eliminated p)) (players room);
     eliminatedPlayers := map id (filter is_eliminated (players room)) |}.

Definition setCurrentPlayer (u : string) (st : GameState) : GameState :=
  {| currentRoom := currentRoom st; currentPlayer := Some u; isHost := isHost st;
     gameBoard := gameBoard st; currentGuess := currentGuess st;
     gameStatus := gameStatus st; winner := winner st; mode := mode st;
     eliminatedPlayers := eliminatedPlayers st; activePlayers := activePlayers st |}.

Definition setIsHost (b : bool) (st : GameState) : GameState :=
  {| currentRoom := currentRoom st; currentPlayer := currentPlayer st; isHost := b;
     gameBoard := gameBoard st; currentGuess := currentGuess st;
     gameStatus := gameStatus st; winner := winner st; mode := mode st;
     eliminatedPlayers := eliminatedPlayers st; activePlayers := activePlayers st |}.

Definition updateGameBoard (b : list (list string)) (st : GameState) : GameState :=
  {| currentRoom := currentRoom st; currentPlayer := currentPlayer st; isHost := isHost st;
     gameBoard := b; currentGuess := currentGuess st;
     gameStatus := gameStatus st; winner := winner st; mode := mode st;
     eliminatedPlayers := eliminatedPlayers st; activePlayers := activePlayers st |}.

Definition setCurrentGuess (g : string) (st : GameState) : GameState :=
  {| currentRoom := currentRoom st; currentPlayer := currentPlayer st; isHost := isHost st;
     gameBoard := gameBoard st; currentGuess := g;
     gameStatus := gameStatus st; winner := winner st; mode := mode st;
     eliminatedPlayers := eliminatedPlayers st; activePlayers := activePlayers st |}.

Definition setGameStatus (s : Status) (st : GameState) : GameState :=
  {| currentRoom := currentRoom st; currentPlayer := currentPlayer st; isHost := isHost st;
     gameBoard := gameBoard st; currentGuess := currentGuess st;
     gameStatus := s; winner := winner st; mode := mode st;
     eliminatedPlayers := eliminatedPlayers st; activePlayers := activePlayers st |}.

Definition setWinner (w : option string) (st : GameState) : GameState :=
  {| currentRoom := currentRoom st; currentPlayer := currentPlayer st; isHost := isHost st;
     gameBoard := gameBoard st; currentGuess := currentGuess st;
     gameStatus := gameStatus st; winner := w; mode := mode st;
     eliminatedPlayers := eliminatedPlayers st; activePlayers := activePlayers st |}.

Definition setMode (md : Mode) (st : GameState) : GameState :=
  {| currentRoom := currentRoom st; currentPlayer := currentPlayer st; isHost := isHost st;
     gameBoard := gameBoard st; currentGuess := currentGuess st;
     gameStatus := gameStatus st; winner := winner st; mode := md;
     eliminatedPlayers := eliminatedPlayers st; activePlayers := activePlayers st |}.

Definition setEliminatedPlayers (ps : list string) (st : GameState) : GameState :=
  {| currentRoom := currentRoom st; currentPlayer := currentPlayer st; isHost := isHost st;
     gameBoard := gameBoard st; currentGuess := currentGuess st;
     gameStatus := gameStatus st; winner := winner st; mode := mode st;
     eliminatedPlayers := ps; activePlayers := activePlayers st |}.

Definition setActivePlayers (ps : list Player) (st : GameState) : GameState :=
  {| currentRoom := currentRoom st; currentPlayer := currentPlayer st; isHost := isHost st;
     gameBoard := gameBoard st; currentGuess := currentGuess st;
     gameStatus := gameStatus st; winner := winner st; mode := mode st;
     eliminatedPlayers := eliminatedPlayers st; activePlayers := ps |}.

(** lines 224-231 *)
Definition resetGame (st : GameState) : GameState :=
  {| currentRoom := currentRoom st; currentPlayer := currentPlayer st; isHost := isHost st;
     gameBoard := empty_board; currentGuess := ""; gameStatus := Waiting;
     winner := None; mode := mode st;
     eliminatedPlayers := []; activePlayers := [] |}.

(** lines 233-246 *)
Definition addPlayer (player : Player) (st : GameState) : GameState :=
  match currentRoom st with
  | Some r => set_room_lists st (with_players r (players r ++ [player]))
  | None => st
  end.

(** lines 248-261 *)
Definition removePlayer (playerId : string) (st : GameState) : GameState :=
  match currentRoom st with
  | Some r =>
      set_room_lists st
        (with_players r (filter (fun p => negb (String.eqb (id p) playerId)) (players r)))
  | None => st
  end.

(** lines 263-278 *)
Definition updatePlayer (playerId : string) (updates : PlayerUpdate) (st : GameState)
    : GameState :=
  match currentRoom st with
  | Some r =>
      set_room_lists st
        (with_players r (map (fun p => if String.eqb (id p) playerId
                                       then spread_player p updates else p) (players r)))
  | None => st
  end.

(** lines 280-295 *)
Definition eliminatePlayer (playerId : string) (st : GameState) : GameState :=
  match currentRoom st with
  | Some r =>
      set_room_lists st
        (with_players r (map (fun p => if String.eqb (id p) playerId
                                       then with_eliminated p else p) (players r)))
  | None => st
  end.

(** Every action of the store. *)
Inductive StoreOp :=
  | OpSetCurrentRoom (room : Room)
  | OpSetCurrentPlayer (u : string)
  | OpSetIsHost (b : bool)
  | OpUpdateGameBoard (b : list (list string))
  | OpSetCurrentGuess (g : string)
  | OpSetGameStatus (s : Status)
  | OpSetWinner (w : option string)
  | OpSetMode (md : Mode)
  | OpSetEliminatedPlayers (ps : list string)
  | OpSetActivePlayers (ps : list Player)
  | OpResetGame
  | OpAddPlayer (p : Player)
  | OpRemovePlayer (playerId : string)
  | OpUpdatePlayer (playerId : string) (updates : PlayerUpdate)
  | OpEliminatePlayer (playerId : string).

Definition apply_op (op : StoreOp) (st : GameState) : GameState :=
  match op with
  | OpSetCurrentRoom r => setCurrentRoom r st
  | OpSetCurrentPlayer u => setCurrentPlayer u st
  | OpSetIsHost b => setIsHost b st
  | OpUpdateGameBoard b => updateGameBoard b st
  | OpSetCurrentGuess g => setCurrentGuess g st
  | OpSetGameStatus s => setGameStatus s st
  | OpSetWinner w => setWinner w st
  | OpSetMode md => setMode md st
  | OpSetEliminatedPlayers ps => setEliminatedPlayers ps st
  | OpSetActivePlayers ps => setActivePlayers ps st
  | OpResetGame => resetGame st
  | OpAddPlayer p => addPlayer p st
  | OpRemovePlayer pid => removePlayer pid st
  | OpUpdatePlayer pid u => updatePlayer pid u st
  | OpEliminatePlayer pid => eliminatePlayer pid st
  end.

(** The roster of the current room ([[]] when there is none). *)
Definition roster (st : GameState) : list Player :=
  match currentRoom st with Some r => players r | None => [] end.

(** [activePlayers] and [eliminatedPlayers] are what [setCurrentRoom] and
    the roster actions compute from the roster. *)
Definition lists_derived (st : GameState) : Prop :=
  activePlayers st = filter (fun p => negb (is_eliminated p)) (roster st) /\
  eliminatedPlayers st = map id (filter is_eliminated (roster st)).

(** The actions that do not write either list directly. *)
Definition derives_lists_op (op : StoreOp) : Prop :=
  match op with
  | OpSetActivePlayers _ | OpSetEliminatedPlayers _ | OpResetGame => False
  | _ => True
  end.

(** The first version of the store (gameStore.ts lines 1-128): its board
    holds tiles, and its [resetGame] (lines 101-108) refills them. *)
Module StoreV1.

Inductive TileStatus := TCorrect | TPresent | TAbsent | TUnused.

Record GameTile := { letter : string; tile_status : TileStatus }.

Record GameState := {
  currentRoom : option Room;
  currentPlayer : option string;
  isHost : bool;
  gameBoard : list (list GameTile);
  currentGuess : string;
  gameStatus : Status;
  winner : option string;
  mode : Mode;
  eliminatedPlayers : list string;
  activePlayers : list Player
}.

Definition empty_tile : GameTile := {| letter := ""; tile_status := TUnused |}.

Definition empty_board : list (list GameTile) := repeat (repeat empty_tile 5) 6.

Definition resetGame (st : GameState) : GameState :=
  {| currentRoom := currentRoom st; currentPlayer := currentPlayer st;
     isHost := isHost st; gameBoard := empty_board; currentGuess := "";
     gameStatus := Waiting; winner := None; mode := mode st;
     eliminatedPlayers := []; activePlayers := [] |}.

End StoreV1.

(** Sample data for the concrete checks below. *)
Definition mk_player (name : string) (gs : list string) : Player :=
  {| id := name; username := name; score := 0%Z; eliminated := Some false;
     guesses := Some (map (fun w => {| word := w; attempt := 0%Z |}) gs);
     won := Some false |}.

Definition alice : Player := mk_player "alice" [].
Definition bob : Player := mk_player "bob" [].

Definition duel_room : Room :=
  {| code := "ABC123"; hostId := "alice"; players := [alice; bob];
     solutionWord := Some "CRANE"; status := Playing; room_mode := Duel;
     maxPlayers := 2%Z; gameStartTime := None; roundNumber := Some 1%Z |}.

Definition st_duel : GameState := setCurrentPlayer "alice" (setCurrentRoom duel_room initialState).

(** Store actions that keep every player id of the roster. *)
Definition keeps_ids_op (op : StoreOp) : Prop :=
  match op with
  | OpRemovePlayer _ | OpSetCurrentRoom _ => False
  | OpUpdatePlayer _ u => u_id u = None
  | _ => True
  end.

(* ------------------------------------------------------------------ *)
(** ** ASCII case helpers ([toUpperCase], regular-expression classes) *)

Definition is_upper (c : ascii) : bool :=
  (65 <=? nat_of_ascii c) && (nat_of_ascii c <=? 90).

Definition is_lower (c : ascii) : bool :=
  (97 <=? nat_of_ascii c) && (nat_of_ascii c <=? 122).

Definition is_digit (c : ascii) : bool :=
  (48 <=? nat_of_ascii c) && (nat_of_ascii c <=? 57).

(** [[A-Za-z]] *)
Definition is_letter (c : ascii) : bool := is_upper c || is_lower c.

Definition char_upper (c : ascii) : ascii :=
  if is_lower c then ascii_of_nat (nat_of_ascii c - 32) else c.

(** [String.prototype.toUpperCase] on ASCII text. *)
Fixpoint js_toUpperCase (s : string) : string :=
  match s with
  | EmptyString => EmptyString
  | String c s' => String (char_upper c) (js_toUpperCase s')
  end.

(** [s.slice(0, -1)] *)
Definition js_slice_drop_last (s : string) : string :=
  substring 0 (String.length s - 1) s.

(* ------------------------------------------------------------------ *)
(** ** The game page (unnamed part_000): local state, [submitGuess] and
    the keyboard handlers

    The page keeps its own [currentGuess], [guesses], [evaluations],
    [gameOver] and [message] (React [useState]); winner and status go to
    the store.  [socketService.submitGuess] is recorded as an emitted
    message. *)

Record Page := {
  pg_currentGuess : string;
  pg_guesses : list string;
  pg_evaluations : list (list (option Verdict));
  pg_gameOver : bool;
  pg_message : string
}.

Record Emitted := {
  em_roomCode : string;
  em_username : option string;
  em_guess : string;
  em_board : list (list string)
}.

(** [Thrown]: the handler raised a [TypeError] ([null.split] when the room
    has no solution word); its partial effects are not modelled. *)
Inductive Outcome :=
  | Done (pg : Page) (st : GameState) (sent : list Emitted)
  | Thrown.

Definition mk_page (cg : string) (gs : list string)
    (evs : list (list (option Verdict))) (over : bool) (msg : string) : Page :=
  {| pg_currentGuess := cg; pg_guesses := gs; pg_evaluations := evs;
     pg_gameOver := over; pg_message := msg |}.

(** lines 101-127 *)
Definition submitGuess (pg : Page) (st : GameState) : Outcome :=
  let cg := pg_currentGuess pg in
  if negb (String.length cg =? 5) then Done pg st [] else
  match currentRoom st with
  | None => Done pg st []
  | Some room =>
      let newGuesses := pg_guesses pg ++ [cg] in
      match solutionWord room with
      | None => Thrown
      | Some sol =>
          let evaluation := evaluateGuess cg sol in
          let evs := pg_evaluations pg ++ [evaluation] in
          let sent := [{| em_roomCode := code room; em_username := currentPlayer st;
                          em_guess := cg; em_board := gameBoard st |}] in
          if String.eqb cg sol then
            Done (mk_page "" newGuesses evs true "Congratulations! You won!")
                 (setGameStatus Finished (setWinner (currentPlayer st) st)) sent
          else if 6 <=? List.length newGuesses then
            Done (mk_page "" newGuesses evs true ("Game Over! The word was " ++ sol))
                 (setGameStatus Finished st) sent
          else
            Done (mk_page "" newGuesses evs (pg_gameOver pg) (pg_message pg)) st sent
      end
  end.

(** [/^[A-Z]$/.test(key)] *)
Definition is_single_AZ (key : string) : bool :=
  match key with
  | String c EmptyString => is_upper c
  | _ => false
  end.

(** lines 89-99 *)
Definition handleKeyPress (key : string) (pg : Page) (st : GameState) : Outcome :=
  if pg_gameOver pg then Done pg st [] else
  if String.eqb key "ENTER" then submitGuess pg st
  else if String.eqb key "BACKSPACE" then
    Done (mk_page (js_slice_drop_last (pg_currentGuess pg)) (pg_guesses pg)
            (pg_evaluations pg) (pg_gameOver pg) (pg_message pg)) st []
  else if is_single_AZ key && (String.length (pg_currentGuess pg) <? 5) then
    Done (mk_page (pg_currentGuess pg ++ key) (pg_guesses pg)
            (pg_evaluations pg) (pg_gameOver pg) (pg_message pg)) st []
  else Done pg st [].

(** lines 130-133: [handleKeyPress(e.key.toUpperCase())] *)
Definition handleKeyDown (eventKey : string) (pg : Page) (st : GameState) : Outcome :=
  handleKeyPress (js_toUpperCase eventKey) pg st.

(** A sequence of key events; emitted messages accumulate. *)
Fixpoint type_keys (keys : list string) (pg : Page) (st : GameState) : Outcome :=
  match keys with
  | [] => Done pg st []
  | k :: ks =>
      match handleKeyDown k pg st with
      | Thrown => Thrown
      | Done pg1 st1 sent1 =>
          match type_keys ks pg1 st1 with
          | Thrown => Thrown
          | Done pg2 st2 sent2 => Done pg2 st2 (sent1 ++ sent2)
          end
      end
  end.

(** One key event per character of [w]. *)
Definition keys_of (w : string) : list string :=
  map (fun c => String c EmptyString) (list_ascii_of_string w).

(** The duel scoreboard's draw banner (GameTimer.tsx line 246):
    [winner === null && players.every(p => p.guesses && p.guesses.length >= 6)]. *)
Definition duel_draw_banner (winner : option string) (players : list Player) : bool :=
  match winner with
  | Some _ => false
  | None =>
      forallb (fun p => match guesses p with
                        | Some gs => 6 <=? List.length gs
                        | None => false
                        end) players
  end.

(** Case-insensitive equality, as the specification words the win test. *)
Definition ci_eqb (a b : string) : bool :=
  String.eqb (js_toUpperCase a) (js_toUpperCase b).

(** Sample page states. *)
Definition page0 : Page := mk_page "" [] [] false "".

Definition page_five_misses : Page :=
  mk_page "BBBBB" ["AAAAA"; "DDDDD"; "FFFFF"; "GGGGG"; "HHHHH"] [] false "".

(* ------------------------------------------------------------------ *)
(** ** utils.ts: [generateRoomCode] *)

(** The random source: [Math.random()] is a value in [0,1); its
    [toString(36)] is ["0"] for zero, and otherwise ["0."] followed by the
    base-36 digits of its fraction.  The value is given here by that digit
    list (each digit below 36). *)
Definition digit36 (d : nat) : ascii :=
  if d <? 10 then ascii_of_nat (48 + d) else ascii_of_nat (87 + d).

Definition number_toString36 (ds : list nat) : string :=
  match ds with
  | [] => "0"
  | _ => String "0" (String "." (string_of_list_ascii (map digit36 ds)))
  end.

(** [String.prototype.substring(start, end)]: both ends clamped to the
    length, swapped when [start > end]. *)
Definition js_substring (s : string) (start end_ : nat) : string :=
  let len := String.length s in
  let a := Nat.min start len in
  let b := Nat.min end_ len in
  substring (Nat.min a b) (Nat.max a b - Nat.min a b) s.

(** lines 42-44 *)
Definition generateRoomCode (ds : list nat) : string :=
  js_toUpperCase (js_substring (number_toString36 ds) 2 8).

(** The characters of a room code: [[A-Z0-9]]. *)
Definition is_code_char (c : ascii) : bool := is_upper c || is_digit c.

(* ------------------------------------------------------------------ *)
(** ** utils.ts: [isValidWord]; CustomWordInput: [validateWord] *)

(** lines 38-40: [word.length === 5 && /^[A-Za-z]{5}$/.test(word)] *)
Definition isValidWord (word : string) : bool :=
  (String.length word =? 5) &&
  ((String.length word =? 5) && forallb is_letter (list_ascii_of_string word)).

(** [/^[A-Z]+$/.test(word)] *)
Definition all_upper_nonempty (word : string) : bool :=
  negb (String.eqb word "") && forallb is_upper (list_ascii_of_string word).

(** [s.startsWith(p)] and [s.includes(p)] *)
Definition js_startsWith (s p : string) : bool := String.prefix p s.

Definition js_includes (s p : string) : bool :=
  match String.index 0 p s with Some _ => true | None => false end.

(** The three pieces of component state that [validateWord] sets. *)
Record Validation := {
  isValid : bool;
  validationMessage : string;
  searchResults : list string
}.

Definition mk_validation (b : bool) (msg : string) (rs : list string) : Validation :=
  {| isValid := b; validationMessage := msg; searchResults := rs |}.

(** gameStore.ts lines 322-359, with [validWords] the word list of
    [validWords.json]. *)
Definition validateWord (validWords : list string) (word : string) : Validation :=
  if String.eqb word "" then mk_validation false "" []
  else if negb (String.length word =? 5) then
    mk_validation false "Word must be exactly 5 letters" []
  else if negb (all_upper_nonempty word) then
    mk_validation false "Word must contain only letters" []
  else if existsb (String.eqb word) validWords then
    mk_validation true "✅ Valid word!" []
  else
    let pre := js_substring word 0 2 in
    let suggestions :=
      filter (fun w => js_startsWith w pre || js_includes w pre) validWords in
    mk_validation false "Word not in dictionary" (firstn 8 suggestions).

(* ------------------------------------------------------------------ *)
(** ** The lobby page (unnamed/part_002): [handleCreateRoom] *)

(** [String.prototype.trim], on ASCII white space. *)
Definition is_js_space (c : ascii) : bool :=
  match nat_of_ascii c with
  | 9 | 10 | 11 | 12 | 13 | 32 => true
  | _ => false
  end.

Fixpoint trim_start (s : string) : string :=
  match s with
  | String c s' => if is_js_space c then trim_start s' else s
  | EmptyString => EmptyString
  end.

Definition string_rev (s : string) : string :=
  string_of_list_ascii (rev (list_ascii_of_string s)).

Definition js_trim (s : string) : string :=
  string_rev (trim_start (string_rev (trim_start s))).

Definition mode_eqb (a b : Mode) : bool :=
  match a, b with
  | Duel, Duel | BattleRoyale, BattleRoyale => true
  | _, _ => false
  end.

(** lines 44-61: the [newRoom] literal. *)
Definition newRoom (u : string) (c : string) (selectedMode : Mode) : Room :=
  {| code := c; hostId := u;
     players := [{| id := u; username := u; score := 0%Z; eliminated := Some false;
                    guesses := Some []; won := Some false |}];
     solutionWord := None; status := Waiting; room_mode := selectedMode;
     maxPlayers := if mode_eqb selectedMode Duel then 2%Z else 8%Z;
     gameStartTime := None; roundNumber := Some 1%Z |}.

(** lines 23-67.  [createRoom] is the API call: [Some code] for its
    response, [None] when it throws.  The result is the store after the
    handler and the page's [error] text. *)
Definition handleCreateRoom (createRoom : string -> Mode -> option string)
    (username : string) (selectedMode : Mode) (st : GameState) : GameState * string :=
  let u := js_trim username in
  if String.eqb u "" then (st, "Please enter a username") else
  match createRoom u selectedMode with
  | None => (st, "Failed to create room. Please try again.")
  | Some c =>
      let st1 := setMode selectedMode (setIsHost true (setCurrentPlayer u st)) in
      (setCurrentRoom (newRoom u c selectedMode) st1, "")
  end.

(** A create-room API that always answers with the same code. *)
Definition api_ok (c : string) : string -> Mode -> option string := fun _ _ => Some c.

(* ------------------------------------------------------------------ *)
(** ** The game page: socket handlers and the on-screen keyboard colours *)

(** lines 34-44: the [guess-submitted] listener.  [data.username !==
    currentPlayer] with [currentPlayer] null always holds.  The listener is
    only registered when [currentRoom] is set; [evaluateGuess] on a null
    solution word throws. *)
Definition onGuessSubmitted (data_username data_guess : string) (pg : Page) (st : GameState)
    : Outcome :=
  match currentRoom st with
  | None => Done pg st []
  | Some room =>
      let other := match currentPlayer st with
                   | Some u => negb (String.eqb data_username u)
                   | None => true
                   end in
      if other then
        match solutionWord room with
        | None => Thrown
        | Some sol =>
            Done (mk_page (pg_currentGuess pg) (pg_guesses pg ++ [data_guess])
                    (pg_evaluations pg ++ [evaluateGuess data_guess sol])
                    (pg_gameOver pg) (pg_message pg)) st []
        end
      else Done pg st []
  end.

(** The result of [getKeyStatus]: an evaluation slot (possibly
    [undefined]), ['unused'], or a [TypeError] when a row of [guesses] is
    missing. *)
Inductive KeyResult := KeyFound (v : option Verdict) | KeyUnused | KeyThrows.

(** The inner loop over [j < evaluations[i].length]: [guesses[i][j] === key],
    with [guesses[i][j]] [undefined] past the end of the row. *)
Fixpoint scan_row (key : string) (row : list ascii) (ev : list (option Verdict))
    : option (option Verdict) :=
  match ev with
  | [] => None
  | v :: ev' =>
      match row with
      | a :: row' => if String.eqb (String a EmptyString) key then Some v
                     else scan_row key row' ev'
      | [] => scan_row key [] ev'
      end
  end.

(** lines 149-158 *)
Fixpoint getKeyStatus (key : string) (guesses : list string)
    (evaluations : list (list (option Verdict))) : KeyResult :=
  match evaluations with
  | [] => KeyUnused
  | [] :: evs' => getKeyStatus key (tl guesses) evs'
  | ev :: evs' =>
      match guesses with
      | [] => KeyThrows
      | g :: gs' =>
          match scan_row key (list_ascii_of_string g) ev with
          | Some v => KeyFound v
          | None => getKeyStatus key gs' evs'
          end
      end
  end.

(** Page invariants kept by the keyboard. *)
Definition guess_shape_ok (pg : Page) : Prop :=
  String.length (pg_currentGuess pg) <= 5 /\
  forallb is_upper (list_ascii_of_string (pg_currentGuess pg)) = true.

Definition guess_cap_ok (pg : Page) : Prop :=
  List.length (pg_guesses pg) <= 6 /\
  (pg_gameOver pg = false -> List.length (pg_guesses pg) <= 5).

(** [===] on two [string | null] values. *)
Definition opt_str_eqb (a b : option string) : bool :=
  match a, b with
  | Some x, Some y => String.eqb x y
  | None, None => true
  | _, _ => false
  end.

(** lines 46-51: the [game-over] listener.  [`Game Over! ${data.winner} won!`]
    renders a null winner as ["null"]. *)
Definition onGameOver (data_winner : option string) (pg : Page) (st : GameState) : Outcome :=
  let msg := if opt_str_eqb data_winner (currentPlayer st)
             then "Congratulations! You won!"
             else ("Game Over! " ++ match data_winner with Some w => w | None => "null" end
                   ++ " won!")%string in
  Done (mk_page (pg_currentGuess pg) (pg_guesses pg) (pg_evaluations pg) true msg)
       (setGameStatus Finished (setWinner data_winner st)) [].

(* ------------------------------------------------------------------ *)
(** ** utils.ts: [formatTime] (the same code as GameTimer.tsx lines 31-35)

    [seconds] is a whole, non-negative number of seconds, as the timer
    passes it ([Math.floor] of an elapsed time). *)

Definition digit_char (d : nat) : ascii := ascii_of_nat (48 + d).

(** [Number.prototype.toString()] in base 10; [fuel] bounds the number of
    digits, and [S n] is enough for [n]. *)
Fixpoint dec_digits (fuel n : nat) : list ascii :=
  match fuel with
  | 0 => []
  | S f => (if n <? 10 then [] else dec_digits f (n / 10)) ++ [digit_char (n mod 10)]
  end.

Definition number_toString (n : nat) : string :=
  string_of_list_ascii (dec_digits (S n) n).

(** [s.padStart(len, c)] for a one-character pad string. *)
Definition padStart (len : nat) (c : ascii) (s : string) : string :=
  if len <=? String.length s then s
  else (string_of_list_ascii (repeat c (len - String.length s)) ++ s)%string.

(** lines 46-50 *)
Definition formatTime (seconds : nat) : string :=
  let mins := seconds / 60 in
  let secs := seconds mod 60 in
  (padStart 2 "0" (number_toString mins) ++ ":" ++ padStart 2 "0" (number_toString secs))%string.

(** The number a string of decimal digits denotes. *)
Definition digits_value (l : list ascii) : nat :=
  fold_left (fun acc c => acc * 10 + (nat_of_ascii c - 48)) l 0.

(* ------------------------------------------------------------------ *)
(** ** GameTimer.tsx: the [Scoreboard] order (lines 193-199) *)

(** [p.won] as a condition: [undefined] is falsy. *)
Definition has_won (p : Player) : bool :=
  match won p with Some true => true | _ => false end.

(** The comparator passed to [sort]. *)
Definition scoreboard_cmp (a b : Player) : Z :=
  if has_won a && negb (has_won b) then (-1)%Z
  else if negb (has_won a) && has_won b then 1%Z
  else if is_eliminated a && negb (is_eliminated b) then 1%Z
  else if negb (is_eliminated a) && is_eliminated b then (-1)%Z
  else (score a - score b)%Z.

(** [Array.prototype.sort] is stable (ES2019); with a comparator that is a
    total preorder, as this one is, every stable sort returns the same
    list, which insertion sort computes: each element goes after every
    element already placed that does not compare greater. *)
Fixpoint insert_by (x : Player) (l : list Player) : list Player :=
  match l with
  | [] => [x]
  | y :: ys => if (0 <? scoreboard_cmp y x)%Z then x :: y :: ys else y :: insert_by x ys
  end.

(** [[...players].sort(...)] *)
Definition sortedPlayers (players : list Player) : list Player :=
  fold_left (fun acc p => insert_by p acc) players [].

(** The order as read from the comparator: winners first; among the same
    [won], players still in before eliminated ones; then lower score
    first. *)
Definition board_before (a b : Player) : Prop :=
  (has_won b = true -> has_won a = true) /\
  (has_won a = has_won b -> is_eliminated a = true -> is_eliminated b = true) /\
  (has_won a = has_won b -> is_eliminated a = is_eliminated b -> (score a <= score b)%Z).

(* ------------------------------------------------------------------ *)
(** ** The lobby page (unnamed/part_002): [handleJoinRoom] (lines 74-97)

    [joinRoom] is the API call: [inl room] for [response.room], [inr m]
    when it throws, [m] being [err.message] ([None] when undefined).  The
    result is the store after the handler and the page's [error] text. *)
Definition handleJoinRoom (joinRoom : string -> string -> Room + option string)
    (username roomCode : string) (st : GameState) : GameState * string :=
  if String.eqb (js_trim username) "" || String.eqb (js_trim roomCode) "" then
    (st, "Please enter both username and room code")
  else
    match joinRoom (js_toUpperCase (js_trim roomCode)) (js_trim username) with
    | inl room =>
        let st1 := setMode (room_mode room)
                     (setIsHost false (setCurrentPlayer (js_trim username) st)) in
        (setCurrentRoom room st1, "")
    | inr m =>
        (st, match m with
             | Some msg => if String.eqb msg "" then "Failed to join room. Please try again." else msg
             | None => "Failed to join room. Please try again."
             end)
    end.

(* ================================================================== *)
(** * Proofs *)

Example evaluateGuess_speed_erase :
  evaluateGuess "SPEED" "ERASE" = map Some [Present; Absent; Present; Present; Absent].
Proof. reflexivity. Qed.

Example two_pass_speed_erase :
  wordle_two_pass "SPEED" "ERASE" = [Present; Absent; Present; Present; Absent].
Proof. reflexivity. Qed.

Example evaluateGuess_eerie_there :
  evaluateGuess "EERIE" "THERE" = map Some (wordle_two_pass "EERIE" "THERE").
Proof. reflexivity. Qed.

(** ** JS array lemmas *)

Lemma js_get_nil {A} (j : nat) : js_get (@nil (option A)) j = None.
Proof. destruct j; reflexivity. Qed.

Lemma js_get_set_nil {A} (i j : nat) (v : A) :
  js_get (js_set [] i v) j = if Nat.eqb i j then Some v else None.
Proof.
  revert j; induction i as [|i IH]; intros [|j]; simpl; try reflexivity.
  - unfold js_get; simpl. destruct j; reflexivity.
  - unfold js_get in *; simpl. apply IH.
Qed.

Lemma js_get_set {A} (l : list (option A)) (i j : nat) (v : A) :
  js_get (js_set l i v) j = if Nat.eqb i j then Some v else js_get l j.
Proof.
  revert i j; induction l as [|x t IH]; intros i j.
  - rewrite js_get_set_nil, js_get_nil. reflexivity.
  - destruct i as [|i], j as [|j]; simpl; try reflexivity.
    unfold js_get in *; simpl. apply IH.
Qed.

Lemma length_js_set {A} (l : list (option A)) (i : nat) (v : A) :
  List.length (js_set l i v) = Nat.max (List.length l) (S i).
Proof.
  revert i; induction l as [|x t IH]; intros [|i]; simpl.
  - reflexivity.
  - induction i; simpl; [reflexivity|]. rewrite IHi. reflexivity.
  - lia.
  - rewrite IH. reflexivity.
Qed.

Lemma nth_error_js_set {A} (l : list (option A)) (i j : nat) (v : A) :
  i < List.length l ->
  nth_error (js_set l i v) j = if Nat.eqb i j then Some (Some v) else nth_error l j.
Proof.
  revert i j; induction l as [|x t IH]; intros i j Hi; simpl in Hi; [lia|].
  destruct i as [|i], j as [|j]; simpl; try reflexivity.
  apply IH; lia.
Qed.

Lemma js_get_split_lt (l : list ascii) (j : nat) (a : ascii) :
  nth_error l j = Some a ->
  js_get (map (fun a => Some (String a EmptyString)) l) j = Some (String a EmptyString).
Proof.
  intro H. unfold js_get. rewrite nth_error_map, H. reflexivity.
Qed.

Lemma js_indexOf_some (l : list (option string)) (x : string) (k : nat) :
  js_indexOf l (Some x) = Some k -> nth_error l k = Some (Some x).
Proof.
  revert k; induction l as [|[y|] t IH]; intros k H; simpl in H.
  - discriminate.
  - destruct (String.eqb_spec y x) as [->|Hne].
    + inversion H; reflexivity.
    + destruct (js_indexOf t (Some x)) eqn:E; simpl in H; [|discriminate].
      inversion H; subst. simpl. apply IH; reflexivity.
  - destruct (js_indexOf t (Some x)) eqn:E; simpl in H; [|discriminate].
    inversion H; subst. simpl. apply IH; reflexivity.
Qed.

Lemma js_indexOf_none (l : list (option string)) (x : string) :
  js_indexOf l (Some x) = None -> cnt l x = 0.
Proof.
  induction l as [|[y|] t IH]; intro H; simpl in *.
  - reflexivity.
  - destruct (String.eqb_spec y x); [discriminate|].
    destruct (js_indexOf t (Some x)); simpl in H; [discriminate|]. auto.
  - destruct (js_indexOf t (Some x)); simpl in H; [discriminate|]. auto.
Qed.

(** Blanking a slot that holds [x] removes one occurrence of [x]. *)
Lemma cnt_blank (l : list (option string)) (k : nat) (x z : string) :
  nth_error l k = Some (Some x) -> z <> "" ->
  cnt (js_set l k "") z + (if String.eqb x z then 1 else 0) = cnt l z.
Proof.
  revert k; induction l as [|o t IH]; intros [|k] Hk Hz; simpl in Hk;
    try discriminate.
  - inversion Hk; subst. simpl.
    destruct z as [|c z']; [congruence|]. simpl. lia.
  - simpl. destruct o as [y|]; [|apply IH; assumption].
    rewrite <- (IH k Hk Hz). lia.
Qed.

Lemma js_get_split (l : list ascii) (j : nat) :
  js_get (js_split_chars l) j =
  match nth_error l j with Some a => Some (String a EmptyString) | None => None end.
Proof.
  unfold js_get, js_split_chars. rewrite nth_error_map.
  destruct (nth_error l j); reflexivity.
Qed.

Lemma eqb_one_char (a b : ascii) :
  String.eqb (String a EmptyString) (String b EmptyString) =
  if ascii_dec a b then true else false.
Proof.
  destruct (ascii_dec a b) as [->|Hne].
  - apply String.eqb_refl.
  - apply String.eqb_neq. congruence.
Qed.

Lemma nth_error_some_lt {A} (l : list A) (j : nat) :
  j < List.length l -> exists x, nth_error l j = Some x.
Proof.
  intro H. destruct (nth_error l j) eqn:E; [eauto|].
  apply nth_error_None in E. lia.
Qed.

(** ** The first loop of [evaluateGuess]

    After the iterations [0 .. k-1], exactly the agreeing positions below
    [k] are marked [correct] and blanked in the solution array. *)
Lemma first_pass_inv (gl sl : list ascii) (k : nat) :
  List.length gl = 5 -> List.length sl = 5 -> k <= 5 ->
  let st := fold_left (first_step (js_split_chars gl)) (seq 0 k)
              ([], js_split_chars sl) in
  (forall j, js_get (fst st) j =
     if (j <? k) && corr gl sl j then Some Correct else None) /\
  (forall j, nth_error (snd st) j =
     if (j <? k) && corr gl sl j then Some (Some "")
     else nth_error (js_split_chars sl) j) /\
  List.length (fst st) <= 5.
Proof.
  intros Hg Hs. induction k as [|k IH]; intros Hk st.
  - subst st. simpl. repeat split; intros; try apply js_get_nil; try reflexivity; lia.
  - subst st. rewrite seq_S, fold_left_app. simpl.
    destruct (fold_left (first_step (js_split_chars gl)) (seq 0 k)
                ([], js_split_chars sl)) as [ev sa] eqn:Est.
    destruct (IH ltac:(lia)) as (Hev & Hsa & Hlen). simpl in Hev, Hsa, Hlen.
    destruct (nth_error_some_lt gl k ltac:(lia)) as [a Ha].
    destruct (nth_error_some_lt sl k ltac:(lia)) as [b Hb].
    assert (Hsak : nth_error sa k = Some (Some (String b EmptyString))).
    { rewrite Hsa, Nat.ltb_irrefl. simpl. unfold js_split_chars.
      rewrite nth_error_map, Hb. reflexivity. }
    assert (Hlsa : k < List.length sa).
    { apply nth_error_Some. congruence. }
    assert (Hck : corr gl sl k = if ascii_dec a b then true else false).
    { unfold corr. rewrite Ha, Hb. reflexivity. }
    unfold first_step. rewrite js_get_split, Ha.
    replace (js_get sa k) with (Some (String b EmptyString))
      by (unfold js_get; rewrite Hsak; reflexivity).
    cbn [js_str_eq]. rewrite eqb_one_char.
    destruct (ascii_dec a b) as [Heq|Hne]; simpl.
    + repeat split.
      * intro j. rewrite js_get_set, Hev.
        destruct (Nat.eqb_spec k j) as [<-|Hkj].
        -- rewrite Hck. replace (k <? S k) with true by (symmetry; apply Nat.ltb_lt; lia).
           reflexivity.
        -- destruct (Nat.ltb_spec j k), (Nat.ltb_spec j (S k)); try lia; reflexivity.
      * intro j. rewrite nth_error_js_set by exact Hlsa. rewrite Hsa.
        destruct (Nat.eqb_spec k j) as [<-|Hkj].
        -- rewrite Hck. replace (k <? S k) with true by (symmetry; apply Nat.ltb_lt; lia).
           reflexivity.
        -- destruct (Nat.ltb_spec j k), (Nat.ltb_spec j (S k)); try lia; reflexivity.
      * rewrite length_js_set. lia.
    + repeat split; try assumption.
      * intro j. rewrite Hev.
        destruct (Nat.eqb_spec k j) as [<-|Hkj].
        -- rewrite Hck, Nat.ltb_irrefl. simpl. rewrite andb_false_r. reflexivity.
        -- destruct (Nat.ltb_spec j k), (Nat.ltb_spec j (S k)); try lia; reflexivity.
      * intro j. rewrite Hsa.
        destruct (Nat.eqb_spec k j) as [<-|Hkj].
        -- rewrite Hck, Nat.ltb_irrefl. simpl. rewrite andb_false_r. reflexivity.
        -- destruct (Nat.ltb_spec j k), (Nat.ltb_spec j (S k)); try lia; reflexivity.
Qed.

Lemma length_list_ascii_of_string (s : string) :
  List.length (list_ascii_of_string s) = String.length s.
Proof. induction s; simpl; congruence. Qed.

Lemma skipn_nth_error {A} (l : list A) (k : nat) (a : A) :
  nth_error l k = Some a -> skipn k l = a :: skipn (S k) l.
Proof.
  revert k; induction l as [|x t IH]; intros [|k] H; simpl in *;
    try discriminate.
  - inversion H; reflexivity.
  - apply IH. exact H.
Qed.

Lemma js_get_some_lt {A} (l : list (option A)) (j : nat) (v : A) :
  js_get l j = Some v -> j < List.length l.
Proof.
  unfold js_get. intro H. apply nth_error_Some.
  destruct (nth_error l j); [discriminate|discriminate H].
Qed.

(** An array whose slots [0 .. n-1] hold the values [vs] and which is no
    longer than [vs] is the dense array of [vs]. *)
Lemma js_array_dense {A} (l : list (option A)) (vs : list A) :
  List.length l <= List.length vs ->
  (forall j, js_get l j = nth_error vs j) -> l = map Some vs.
Proof.
  revert vs; induction l as [|x t IH]; intros [|v vs] Hlen H; simpl in *.
  - reflexivity.
  - specialize (H 0). rewrite js_get_nil in H. discriminate.
  - lia.
  - pose proof (H 0) as H0. unfold js_get in H0. simpl in H0. subst x.
    f_equal. apply IH; [lia|]. intro j. exact (H (S j)).
Qed.

(** ** The first pass of the specification *)

Lemma spec_first_pass_marks (gl sl : list ascii) (m : mset) (j : nat) :
  nth_error (fst (spec_first_pass gl sl m)) j =
  match nth_error gl j, nth_error sl j with
  | Some _, Some _ => Some (corr gl sl j)
  | _, _ => None
  end.
Proof.
  revert sl m j; induction gl as [|a gl IH]; intros [|b sl] m j.
  - destruct j; reflexivity.
  - destruct j; reflexivity.
  - simpl. destruct j; simpl; [reflexivity|]. destruct (nth_error gl j); reflexivity.
  - simpl. pose proof (IH sl (if ascii_dec a b then mset_remove m a else m)) as IH'.
    destruct (spec_first_pass gl sl (if ascii_dec a b then mset_remove m a else m))
      as [marks m'] eqn:E.
    destruct j as [|j]; simpl.
    + unfold corr. simpl. reflexivity.
    + specialize (IH' j). simpl in IH'. rewrite IH'. unfold corr. reflexivity.
Qed.

Lemma length_spec_first_pass (gl sl : list ascii) (m : mset) :
  List.length (fst (spec_first_pass gl sl m)) = Nat.min (List.length gl) (List.length sl).
Proof.
  revert sl m; induction gl as [|a gl IH]; intros [|b sl] m; simpl; try reflexivity.
  pose proof (IH sl (if ascii_dec a b then mset_remove m a else m)) as IH'.
  destruct (spec_first_pass gl sl (if ascii_dec a b then mset_remove m a else m))
    as [marks m'] eqn:E.
  simpl in *. rewrite IH'. reflexivity.
Qed.

Lemma spec_first_pass_mset (gl sl : list ascii) (m : mset) (c : ascii) :
  (forall c, corr_count c gl sl <= m c) ->
  snd (spec_first_pass gl sl m) c + corr_count c gl sl = m c.
Proof.
  revert sl m; induction gl as [|a gl IH]; intros [|b sl] m Hm; simpl; try lia.
  pose proof (Hm c) as Hc. simpl in Hc.
  destruct (ascii_dec a b) as [<-|Hab].
  - assert (Hm1 : forall x, corr_count x gl sl <= mset_remove m a x).
    { intro x. specialize (Hm x). simpl in Hm. unfold mset_remove.
      destruct (ascii_dec a a) as [_|]; [|congruence].
      destruct (ascii_dec a x), (ascii_dec x a); subst; try congruence; lia. }
    specialize (IH sl (mset_remove m a) Hm1).
    destruct (spec_first_pass gl sl (mset_remove m a)) as [marks m'] eqn:E.
    simpl in *. unfold mset_remove in IH.
    destruct (ascii_dec a a) as [_|]; [|congruence].
    destruct (ascii_dec a c), (ascii_dec c a); subst; try congruence; lia.
  - assert (Hm1 : forall x, corr_count x gl sl <= m x).
    { intro x. specialize (Hm x). simpl in Hm.
      destruct (ascii_dec a b); [congruence|]. lia. }
    specialize (IH sl m Hm1).
    destruct (spec_first_pass gl sl m) as [marks m'] eqn:E.
    simpl in *. lia.
Qed.

Lemma corr_count_le (gl sl : list ascii) (c : ascii) :
  corr_count c gl sl <= count_occ ascii_dec sl c.
Proof.
  revert sl; induction gl as [|a gl IH]; intros [|b sl]; simpl; try lia.
  specialize (IH sl).
  destruct (ascii_dec a b), (ascii_dec a c), (ascii_dec b c); subst; try congruence; lia.
Qed.

Lemma cnt_blank_correct (gl sl : list ascii) (c : ascii) :
  List.length gl = List.length sl ->
  cnt (blank_correct gl sl) (String c EmptyString) + corr_count c gl sl =
  count_occ ascii_dec sl c.
Proof.
  revert sl; induction gl as [|a gl IH]; intros [|b sl] Hlen;
    cbn [blank_correct corr_count count_occ List.length cnt] in *; try lia.
  specialize (IH sl ltac:(lia)).
  destruct (ascii_dec a b) as [<-|Hab]; cbn [cnt].
  - destruct (ascii_dec a c); simpl; lia.
  - rewrite eqb_one_char. destruct (ascii_dec b c), (ascii_dec a c); subst; try congruence; lia.
Qed.

Lemma nth_error_blank_correct (gl sl : list ascii) (j : nat) :
  nth_error (blank_correct gl sl) j =
  match nth_error gl j, nth_error sl j with
  | Some a, Some b =>
      Some (if ascii_dec a b then Some "" else Some (String b EmptyString))
  | _, _ => None
  end.
Proof.
  revert sl j; induction gl as [|a gl IH]; intros [|b sl] j.
  - destruct j; reflexivity.
  - destruct j; reflexivity.
  - destruct j; simpl; [reflexivity|]. destruct (nth_error gl j); reflexivity.
  - destruct j; simpl; [reflexivity|]. apply IH.
Qed.

(** After the first loop the solution array is the solution with its
    agreeing positions blanked. *)
Lemma first_pass_array (gl sl : list ascii) :
  List.length gl = 5 -> List.length sl = 5 ->
  snd (fold_left (first_step (js_split_chars gl)) (seq 0 5) ([], js_split_chars sl))
  = blank_correct gl sl.
Proof.
  intros Hg Hs.
  destruct (first_pass_inv gl sl 5 Hg Hs ltac:(lia)) as (_ & Hsa & _).
  apply nth_error_ext. intro j. rewrite Hsa, nth_error_blank_correct.
  unfold corr, js_split_chars. rewrite nth_error_map.
  destruct (Nat.ltb_spec j 5).
  - destruct (nth_error_some_lt gl j ltac:(lia)) as [a Ha].
    destruct (nth_error_some_lt sl j ltac:(lia)) as [b Hb].
    rewrite Ha, Hb. simpl. destruct (ascii_dec a b); reflexivity.
  - assert (Hn : nth_error sl j = None) by (apply nth_error_None; lia).
    rewrite Hn. simpl. destruct (nth_error gl j); reflexivity.
Qed.

(** ** The second loop of [evaluateGuess] against the specification's
    second pass

    From iteration [k] on, with a multiset [m] that counts the letters
    still in the solution array, the loop writes at positions [>= k]
    exactly the verdicts of [spec_second_pass] on the remaining letters,
    and leaves positions [< k] alone. *)
Lemma second_pass_sim (gl sl : list ascii) (marks : list bool) :
  List.length gl = 5 ->
  (forall j, j < 5 -> nth_error marks j = Some (corr gl sl j)) ->
  forall n k ev sa (m : mset),
  k + n = 5 ->
  (forall c, m c = cnt sa (String c EmptyString)) ->
  (forall j, k <= j -> js_get ev j = if corr gl sl j then Some Correct else None) ->
  List.length ev <= 5 ->
  let ev' := fst (fold_left (second_step (js_split_chars gl)) (seq k n) (ev, sa)) in
  (forall j, j < k -> js_get ev' j = js_get ev j) /\
  (forall j, k <= j ->
     js_get ev' j = nth_error (spec_second_pass (skipn k gl) (skipn k marks) m) (j - k)) /\
  List.length ev' <= 5.
Proof.
  intros Hg Hmarks n. induction n as [|n IH]; intros k ev sa m Hkn Hm Hev Hlen ev'.
  - subst ev'. simpl.
    assert (Hsk : skipn k gl = []) by (apply skipn_all2; lia). rewrite Hsk. simpl.
    repeat split; try assumption.
    intros j Hj. rewrite Hev by lia. unfold corr.
    rewrite (proj2 (nth_error_None gl j)) by lia. destruct (j - k); reflexivity.
  - subst ev'. simpl.
    destruct (nth_error_some_lt gl k ltac:(lia)) as [a Ha].
    rewrite (skipn_nth_error gl k a Ha).
    rewrite (skipn_nth_error marks k (corr gl sl k) (Hmarks k ltac:(lia))).
    cbn [spec_second_pass].
    assert (Hga : js_get (js_split_chars gl) k = Some (String a EmptyString)).
    { rewrite js_get_split, Ha. reflexivity. }
    unfold second_step at 2. rewrite (Hev k (le_n k)).
    destruct (corr gl sl k) eqn:Hck; cbn [is_correct_slot].
    + (* already [correct] after the first loop *)
      destruct (IH (S k) ev sa m ltac:(lia) Hm ltac:(intros; apply Hev; lia) Hlen)
        as (Hlo & Hhi & Hl').
      repeat split; try assumption.
      * intros j Hj. apply Hlo. lia.
      * intros j Hj. destruct (Nat.eq_dec j k) as [->|Hjk].
        -- rewrite Hlo by lia. rewrite Hev, Hck by lia. rewrite Nat.sub_diag. reflexivity.
        -- rewrite Hhi by lia. replace (j - k) with (S (j - S k)) by lia. reflexivity.
    + rewrite Hga.
      destruct (js_indexOf sa (Some (String a EmptyString))) as [idx|] eqn:Hidx.
      * (* the letter is still in the solution: [present] *)
        pose proof (js_indexOf_some _ _ _ Hidx) as Hsa.
        assert (Hma : 0 < m a).
        { pose proof (cnt_blank sa idx (String a EmptyString) (String a EmptyString) Hsa
            ltac:(discriminate)) as Hc.
          rewrite String.eqb_refl in Hc. rewrite Hm. lia. }
        replace (Nat.ltb 0 (m a)) with true by (symmetry; apply Nat.ltb_lt; exact Hma).
        assert (Hm' : forall c, mset_remove m a c =
                  cnt (js_set sa idx "") (String c EmptyString)).
        { intro c. pose proof (cnt_blank sa idx (String a EmptyString) (String c EmptyString)
            Hsa ltac:(discriminate)) as Hc.
          rewrite eqb_one_char in Hc. unfold mset_remove.
          destruct (ascii_dec c a) as [Hca|Hca], (ascii_dec a c) as [Hac|Hac];
            subst; try congruence; rewrite Hm; lia. }
        assert (Hev' : forall j, S k <= j -> js_get (js_set ev k Present) j =
                   if corr gl sl j then Some Correct else None).
        { intros j Hj. rewrite js_get_set.
          destruct (Nat.eqb_spec k j); [lia|]. apply Hev. lia. }
        assert (Hlen' : List.length (js_set ev k Present) <= 5).
        { rewrite length_js_set. lia. }
        destruct (IH (S k) _ _ _ ltac:(lia) Hm' Hev' Hlen') as (Hlo & Hhi & Hl').
        repeat split; try assumption.
        -- intros j Hj. rewrite Hlo by lia. rewrite js_get_set.
           destruct (Nat.eqb_spec k j); [lia|reflexivity].
        -- intros j Hj. destruct (Nat.eq_dec j k) as [->|Hjk].
           ++ rewrite Hlo by lia. rewrite js_get_set, Nat.eqb_refl, Nat.sub_diag.
              reflexivity.
           ++ rewrite Hhi by lia. replace (j - k) with (S (j - S k)) by lia. reflexivity.
      * (* the letter is used up: [absent] *)
        pose proof (js_indexOf_none _ _ Hidx) as H0.
        replace (Nat.ltb 0 (m a)) with false
          by (symmetry; apply Nat.ltb_ge; rewrite Hm; lia).
        assert (Hev' : forall j, S k <= j -> js_get (js_set ev k Absent) j =
                   if corr gl sl j then Some Correct else None).
        { intros j Hj. rewrite js_get_set.
          destruct (Nat.eqb_spec k j); [lia|]. apply Hev. lia. }
        assert (Hlen' : List.length (js_set ev k Absent) <= 5).
        { rewrite length_js_set. lia. }
        destruct (IH (S k) _ _ _ ltac:(lia) Hm Hev' Hlen') as (Hlo & Hhi & Hl').
        repeat split; try assumption.
        -- intros j Hj. rewrite Hlo by lia. rewrite js_get_set.
           destruct (Nat.eqb_spec k j); [lia|reflexivity].
        -- intros j Hj. destruct (Nat.eq_dec j k) as [->|Hjk].
           ++ rewrite Hlo by lia. rewrite js_get_set, Nat.eqb_refl, Nat.sub_diag.
              reflexivity.
           ++ rewrite Hhi by lia. replace (j - k) with (S (j - S k)) by lia. reflexivity.
Qed.

Lemma length_spec_second_pass (gl : list ascii) (marks : list bool) (m : mset) :
  List.length (spec_second_pass gl marks m) = Nat.min (List.length gl) (List.length marks).
Proof.
  revert marks m; induction gl as [|a gl IH]; intros [|b marks] m; simpl; try reflexivity.
  destruct b; [|destruct (Nat.ltb 0 (m a))]; simpl; rewrite IH; reflexivity.
Qed.

(** [evaluateGuess] computes the two-pass algorithm on 5-letter words. *)
Lemma evaluateGuess_two_pass (guess solution : string) :
  String.length guess = 5 -> String.length solution = 5 ->
  evaluateGuess guess solution = map Some (wordle_two_pass guess solution).
Proof.
  intros Hg Hs. unfold evaluateGuess, wordle_two_pass, js_split.
  rewrite <- length_list_ascii_of_string in Hg, Hs.
  set (gl := list_ascii_of_string guess) in *.
  set (sl := list_ascii_of_string solution) in *.
  destruct (first_pass_inv gl sl 5 Hg Hs ltac:(lia)) as (Hev1 & _ & Hlen1).
  pose proof (first_pass_array gl sl Hg Hs) as Hsa1.
  destruct (fold_left (first_step (js_split_chars gl)) (seq 0 5) ([], js_split_chars sl))
    as [ev1 sa1] eqn:E1.
  simpl in Hev1, Hlen1, Hsa1.
  pose proof (spec_first_pass_marks gl sl (mset_of sl)) as Hmk.
  pose proof (length_spec_first_pass gl sl (mset_of sl)) as Hlmk.
  pose proof (spec_first_pass_mset gl sl (mset_of sl)) as Hms.
  destruct (spec_first_pass gl sl (mset_of sl)) as [marks m1] eqn:Es.
  simpl in Hmk, Hlmk, Hms.
  assert (Hmarks : forall j, j < 5 -> nth_error marks j = Some (corr gl sl j)).
  { intros j Hj. rewrite Hmk.
    destruct (nth_error_some_lt gl j ltac:(lia)) as [a Ha].
    destruct (nth_error_some_lt sl j ltac:(lia)) as [b Hb].
    rewrite Ha, Hb. reflexivity. }
  assert (Hm : forall c, m1 c = cnt sa1 (String c EmptyString)).
  { intro c. subst sa1.
    pose proof (Hms c (fun x => corr_count_le gl sl x)) as H1.
    pose proof (cnt_blank_correct gl sl c ltac:(lia)) as H2.
    unfold mset_of in H1. lia. }
  assert (Hev : forall j, 0 <= j ->
            js_get ev1 j = if corr gl sl j then Some Correct else None).
  { intros j _. rewrite Hev1. destruct (Nat.ltb_spec j 5); [reflexivity|].
    unfold corr. rewrite (proj2 (nth_error_None gl j)) by lia. reflexivity. }
  destruct (second_pass_sim gl sl marks Hg Hmarks 5 0 ev1 sa1 m1 eq_refl Hm Hev Hlen1)
    as (_ & Hhi & Hlen2).
  simpl in Hhi.
  apply js_array_dense.
  - rewrite length_spec_second_pass, Hlmk. lia.
  - intro j. rewrite Hhi by lia. rewrite Nat.sub_0_r. reflexivity.
Qed.

Lemma hits_second_pass (gl : list ascii) (marks : list bool) (m : mset) (c : ascii) :
  hits_of gl (map Some (spec_second_pass gl marks m)) c <= marked_count c gl marks + m c.
Proof.
  revert marks m; induction gl as [|a gl IH]; intros [|b marks] m; simpl; try lia.
  destruct b.
  - simpl. specialize (IH marks m). destruct (ascii_dec a c); lia.
  - destruct (Nat.ltb_spec 0 (m a)); simpl.
    + specialize (IH marks (mset_remove m a)). unfold mset_remove at 2 in IH.
      destruct (ascii_dec a c) as [<-|Hac].
      * destruct (ascii_dec a a); [|congruence]. lia.
      * destruct (ascii_dec c a); [congruence|]. lia.
    + specialize (IH marks m). destruct (ascii_dec a c); lia.
Qed.

Lemma marked_count_first_pass (gl sl : list ascii) (m : mset) (c : ascii) :
  marked_count c gl (fst (spec_first_pass gl sl m)) = corr_count c gl sl.
Proof.
  revert sl m; induction gl as [|a gl IH]; intros [|b sl] m; simpl; try reflexivity.
  pose proof (IH sl (if ascii_dec a b then mset_remove m a else m)) as IH'.
  destruct (spec_first_pass gl sl (if ascii_dec a b then mset_remove m a else m))
    as [marks m'] eqn:E.
  simpl in *. rewrite IH'. destruct (ascii_dec a b); reflexivity.
Qed.

(** The specification's algorithm never hits a letter more often than the
    solution holds it. *)
Lemma two_pass_hits_bound (guess solution : string) (c : ascii) :
  hits_of (list_ascii_of_string guess) (map Some (wordle_two_pass guess solution)) c
  <= count_occ ascii_dec (list_ascii_of_string solution) c.
Proof.
  unfold wordle_two_pass.
  set (gl := list_ascii_of_string guess). set (sl := list_ascii_of_string solution).
  pose proof (marked_count_first_pass gl sl (mset_of sl) c) as H1.
  pose proof (spec_first_pass_mset gl sl (mset_of sl) c
                (fun x => corr_count_le gl sl x)) as H2.
  destruct (spec_first_pass gl sl (mset_of sl)) as [marks m1] eqn:E.
  simpl in H1, H2. unfold mset_of in H2.
  pose proof (hits_second_pass gl marks m1 c). lia.
Qed.

(** ** Claim C1 *)

(** C1: for 5-character [guess] and [solution], [evaluateGuess] returns the
    verdicts of the two-pass algorithm: first, position [i] is [correct]
    exactly when [guess[i] == solution[i]], and that letter leaves the
    solution's multiset; then, left to right, every other position is
    [present] when its letter is still in the multiset (consuming one
    occurrence) and [absent] otherwise. *)
Theorem evaluateGuess_is_two_pass (guess solution : string) :
  String.length guess = 5 -> String.length solution = 5 ->
  evaluateGuess guess solution = map Some (wordle_two_pass guess solution).
Proof. apply evaluateGuess_two_pass. Qed.

Lemma evaluateGuess_is_two_pass_witness :
  String.length "SPEED" = 5 /\ String.length "ERASE" = 5 /\
  evaluateGuess "SPEED" "ERASE" = map Some (wordle_two_pass "SPEED" "ERASE").
Proof.
  split; [reflexivity|]. split; [reflexivity|].
  apply evaluateGuess_is_two_pass; reflexivity.
Defined.

(** ** Claim C2 *)

(** C2: for 5-character [guess] and [solution] and every letter [c], the
    positions of [guess] holding [c] with verdict [correct] or [present]
    are at most as many as the occurrences of [c] in [solution]. *)
Theorem evaluateGuess_hits_bounded (guess solution : string) (c : ascii) :
  String.length guess = 5 -> String.length solution = 5 ->
  hits_of (list_ascii_of_string guess) (evaluateGuess guess solution) c
  <= count_occ ascii_dec (list_ascii_of_string solution) c.
Proof.
  intros Hg Hs. rewrite evaluateGuess_two_pass by assumption.
  apply two_pass_hits_bound.
Qed.

Lemma evaluateGuess_hits_bounded_witness :
  hits_of (list_ascii_of_string "SPEED") (evaluateGuess "SPEED" "ERASE") "E"%char = 2 /\
  hits_of (list_ascii_of_string "SPEED") (evaluateGuess "SPEED" "ERASE") "E"%char
  <= count_occ ascii_dec (list_ascii_of_string "ERASE") "E"%char.
Proof.
  split; [reflexivity|].
  apply evaluateGuess_hits_bounded; reflexivity.
Defined.

(** ** The store *)

Lemma roster_set_room_lists (st : GameState) (r : Room) :
  roster (set_room_lists st r) = players r.
Proof. reflexivity. Qed.

Lemma in_ids_map_update (ps : list Player) (f : Player -> Player) (p : Player) :
  (forall q, id (f q) = id q) -> In p ps -> In (id p) (map id (map f ps)).
Proof.
  intros Hf Hp. rewrite map_map. apply in_map_iff. exists p. split; [apply Hf|exact Hp].
Qed.

(** ** Claim C5 *)

(** C5 (counterexample): the roster is not kept by every store action:
    [removePlayer("bob")] on a duel room with alice and bob drops bob from
    [currentRoom.players]. *)
Lemma roster_kept_counterexample :
  ~ (forall (op : StoreOp) (st : GameState) (p : Player),
       In p (roster st) -> In (id p) (map id (roster (apply_op op st)))).
Proof.
  intro H. specialize (H (OpRemovePlayer "bob") st_duel bob).
  assert (Hin : In bob (roster st_duel)) by (simpl; auto).
  specialize (H Hin). vm_compute in H.
  destruct H as [H|H]; [discriminate H|exact H].
Qed.

(** C5 (amended): every store action other than [removePlayer],
    [setCurrentRoom] and an [updatePlayer] whose update rewrites [id] keeps
    the id of every player of [currentRoom.players] (eliminated and won
    players included); [removePlayer(pid)] keeps a player exactly when its
    id is not [pid]. *)
Theorem roster_kept_except_removal (op : StoreOp) (st : GameState) (p : Player) :
  In p (roster st) ->
  (keeps_ids_op op -> In (id p) (map id (roster (apply_op op st)))) /\
  (forall pid, op = OpRemovePlayer pid ->
     (In p (roster (apply_op op st)) <-> id p <> pid)).
Proof.
  intro Hp. split.
  - intro Hop. unfold roster in *.
    destruct op; simpl in Hop; try contradiction; simpl; try (apply in_map; exact Hp).
    + (* addPlayer *)
      unfold addPlayer. destruct (currentRoom st) as [r|]; [|contradiction].
      simpl. apply in_map. apply in_or_app. left. exact Hp.
    + (* updatePlayer *)
      unfold updatePlayer. destruct (currentRoom st) as [r|]; [|contradiction].
      simpl. apply in_ids_map_update; [|exact Hp].
      intro q. destruct (String.eqb (id q) playerId); [|reflexivity].
      unfold spread_player. simpl. rewrite Hop. reflexivity.
    + (* eliminatePlayer *)
      unfold eliminatePlayer. destruct (currentRoom st) as [r|]; [|contradiction].
      simpl. apply in_ids_map_update; [|exact Hp].
      intro q. destruct (String.eqb (id q) playerId); reflexivity.
  - intros pid ->. simpl. unfold removePlayer, roster in *.
    destruct (currentRoom st) as [r|]; [|contradiction].
    simpl. rewrite filter_In. split.
    + intros [_ H]. apply negb_true_iff, String.eqb_neq in H. exact H.
    + intro H. split; [exact Hp|]. apply negb_true_iff, String.eqb_neq. exact H.
Qed.

Lemma roster_kept_except_removal_witness :
  In (id bob) (map id (roster (apply_op (OpEliminatePlayer "bob") st_duel))) /\
  (In bob (roster (apply_op (OpRemovePlayer "alice") st_duel)) <-> id bob <> "alice").
Proof.
  split.
  - apply (roster_kept_except_removal (OpEliminatePlayer "bob") st_duel bob);
      [simpl; auto | exact I].
  - apply (roster_kept_except_removal (OpRemovePlayer "alice") st_duel bob);
      [simpl; auto | reflexivity].
Defined.

(** ** Claim C9 *)

(** C9: when [currentRoom] holds a player with id [pid],
    [eliminatePlayer(pid)] sets that player's [eliminated] to [true], keeps
    the roster's length and every other player as it was, removes the
    player from [activePlayers], adds its id to [eliminatedPlayers], and
    recomputes both lists from the updated roster. *)
Theorem eliminatePlayer_marks (st : GameState) (r : Room) (pid : string) :
  currentRoom st = Some r -> In pid (map id (players r)) ->
  let st' := eliminatePlayer pid st in
  List.length (roster st') = List.length (players r) /\
  (forall i p, nth_error (players r) i = Some p ->
     nth_error (roster st') i =
       Some (if String.eqb (id p) pid then with_eliminated p else p)) /\
  (forall p, In p (roster st') -> id p = pid -> eliminated p = Some true) /\
  (forall p, In p (activePlayers st') -> id p <> pid) /\
  In pid (eliminatedPlayers st') /\
  activePlayers st' = filter (fun p => negb (is_eliminated p)) (roster st') /\
  eliminatedPlayers st' = map id (filter is_eliminated (roster st')).
Proof.
  intros Hr Hin st'. subst st'. unfold eliminatePlayer, roster. rewrite Hr. simpl.
  set (f := fun p => if String.eqb (id p) pid then with_eliminated p else p).
  assert (Hf : forall p, id p = pid -> is_eliminated (f p) = true).
  { intros p Hp. subst f. simpl. rewrite Hp, String.eqb_refl. reflexivity. }
  assert (Hfe : forall p, id p = pid -> eliminated (f p) = Some true).
  { intros p Hp. subst f. simpl. rewrite Hp, String.eqb_refl. reflexivity. }
  repeat split.
  - apply length_map.
  - intros i p Hi. rewrite nth_error_map, Hi. reflexivity.
  - intros p Hp Hid. apply in_map_iff in Hp as (q & <- & Hq).
    apply Hfe. subst f. simpl in Hid.
    destruct (String.eqb_spec (id q) pid); [assumption|exact Hid].
  - intros p Hp Hid. apply filter_In in Hp as [Hp Hne].
    apply in_map_iff in Hp as (q & <- & Hq).
    assert (Hq' : id q = pid).
    { subst f. simpl in Hid. destruct (String.eqb_spec (id q) pid); [assumption|exact Hid]. }
    rewrite (Hf q Hq') in Hne. discriminate.
  - apply in_map_iff in Hin as (q & Hq & Hqin).
    apply in_map_iff. exists (f q). split.
    + subst f. simpl. rewrite Hq, String.eqb_refl. simpl. exact Hq.
    + apply filter_In. split; [apply in_map; exact Hqin|apply Hf; exact Hq].
Qed.

Lemma eliminatePlayer_marks_witness :
  currentRoom st_duel = Some duel_room /\ In "bob" (map id (players duel_room)) /\
  (let st' := eliminatePlayer "bob" st_duel in
   List.length (roster st') = List.length (players duel_room) /\
   (forall i p, nth_error (players duel_room) i = Some p ->
      nth_error (roster st') i =
        Some (if String.eqb (id p) "bob" then with_eliminated p else p)) /\
   (forall p, In p (roster st') -> id p = "bob" -> eliminated p = Some true) /\
   (forall p, In p (activePlayers st') -> id p <> "bob") /\
   In "bob" (eliminatedPlayers st') /\
   activePlayers st' = filter (fun p => negb (is_eliminated p)) (roster st') /\
   eliminatedPlayers st' = map id (filter is_eliminated (roster st'))).
Proof.
  split; [reflexivity|]. split; [simpl; auto|].
  apply eliminatePlayer_marks; [reflexivity | simpl; auto].
Defined.

(** ** Claim C10 *)

(** C10: [resetGame] (both versions of the store) puts a fresh 6 x 5 empty
    board, an empty current guess, status [waiting], no winner and empty
    [eliminatedPlayers] / [activePlayers], and leaves [currentRoom],
    [currentPlayer], [isHost] and [mode] as they were. *)
Theorem resetGame_fields (st : GameState) (st1 : StoreV1.GameState) :
  (let st' := resetGame st in
   gameBoard st' = repeat (repeat "" 5) 6 /\ currentGuess st' = "" /\
   gameStatus st' = Waiting /\ winner st' = None /\
   eliminatedPlayers st' = [] /\ activePlayers st' = [] /\
   currentRoom st' = currentRoom st /\ currentPlayer st' = currentPlayer st /\
   isHost st' = isHost st /\ mode st' = mode st) /\
  (let st1' := StoreV1.resetGame st1 in
   StoreV1.gameBoard st1' =
     repeat (repeat {| StoreV1.letter := ""; StoreV1.tile_status := StoreV1.TUnused |} 5) 6 /\
   StoreV1.currentGuess st1' = "" /\
   StoreV1.gameStatus st1' = Waiting /\ StoreV1.winner st1' = None /\
   StoreV1.eliminatedPlayers st1' = [] /\ StoreV1.activePlayers st1' = [] /\
   StoreV1.currentRoom st1' = StoreV1.currentRoom st1 /\
   StoreV1.currentPlayer st1' = StoreV1.currentPlayer st1 /\
   StoreV1.isHost st1' = StoreV1.isHost st1 /\ StoreV1.mode st1' = StoreV1.mode st1).
Proof. split; simpl; repeat split. Qed.

(** ** The game page *)

Example type_crane_upper :
  match type_keys (keys_of "crane") page0 st_duel with
  | Done pg _ _ => pg_currentGuess pg = "CRANE"
  | Thrown => False
  end.
Proof. vm_compute. reflexivity. Qed.

Lemma char_upper_letter (c : ascii) :
  is_letter c = true -> is_upper (char_upper c) = true.
Proof.
  intro H. destruct c as [b0 b1 b2 b3 b4 b5 b6 b7].
  destruct b0, b1, b2, b3, b4, b5, b6, b7; vm_compute in H |- *;
    first [reflexivity | discriminate H].
Qed.

Lemma length_js_toUpperCase (s : string) :
  String.length (js_toUpperCase s) = String.length s.
Proof. induction s; simpl; congruence. Qed.

Lemma string_append_assoc (a b c : string) : ((a ++ b) ++ c)%string = (a ++ (b ++ c))%string.
Proof. induction a; simpl; congruence. Qed.

Lemma one_char_not_keyword (u : ascii) :
  String.eqb (String u EmptyString) "ENTER" = false /\
  String.eqb (String u EmptyString) "BACKSPACE" = false.
Proof.
  split; apply String.eqb_neq; intro H;
    apply (f_equal String.length) in H; discriminate H.
Qed.

Lemma type_keys_app (l1 l2 : list string) (pg : Page) (st : GameState) :
  type_keys (l1 ++ l2) pg st =
  match type_keys l1 pg st with
  | Thrown => Thrown
  | Done pg1 st1 s1 =>
      match type_keys l2 pg1 st1 with
      | Thrown => Thrown
      | Done pg2 st2 s2 => Done pg2 st2 (s1 ++ s2)
      end
  end.
Proof.
  revert pg st; induction l1 as [|k ks IH]; intros pg st; simpl.
  - destruct (type_keys l2 pg st); reflexivity.
  - destruct (handleKeyDown k pg st) as [pg1 st1 s1|]; [|reflexivity].
    rewrite IH.
    destruct (type_keys ks pg1 st1) as [pg2 st2 s2|]; [|reflexivity].
    destruct (type_keys l2 pg2 st2); [|reflexivity].
    rewrite app_assoc. reflexivity.
Qed.

(** Typing letters, in either case, appends them in upper case. *)
Lemma string_length_append (a b : string) :
  String.length (a ++ b)%string = String.length a + String.length b.
Proof. induction a; simpl; congruence. Qed.

Lemma string_append_nil_r (a : string) : (a ++ "")%string = a.
Proof. induction a; simpl; congruence. Qed.

(** Typing letters, in either case, appends them in upper case. *)
Lemma type_letters (w : string) (pg : Page) (st : GameState) :
  forallb is_letter (list_ascii_of_string w) = true ->
  String.length (pg_currentGuess pg) + String.length w <= 5 ->
  pg_gameOver pg = false ->
  type_keys (keys_of w) pg st =
  Done (mk_page (pg_currentGuess pg ++ js_toUpperCase w) (pg_guesses pg)
          (pg_evaluations pg) false (pg_message pg)) st [].
Proof.
  revert pg; induction w as [|c w IH]; intros pg Hl Hlen Hover.
  - destruct pg as [cg gs evs over msg]. simpl in *. subst over.
    rewrite string_append_nil_r. reflexivity.
  - simpl in Hl. apply andb_true_iff in Hl as [Hc Hl].
    simpl in Hlen.
    cbn [keys_of list_ascii_of_string map type_keys].
    unfold handleKeyDown, handleKeyPress. cbn [js_toUpperCase].
    rewrite Hover.
    destruct (one_char_not_keyword (char_upper c)) as [HE HB].
    rewrite HE, HB. cbn [is_single_AZ]. rewrite (char_upper_letter c Hc).
    replace (String.length (pg_currentGuess pg) <? 5) with true
      by (symmetry; apply Nat.ltb_lt; lia).
    simpl andb. cbv iota.
    fold (keys_of w).
    set (pg1 := mk_page (pg_currentGuess pg ++ String (char_upper c) "")
                  (pg_guesses pg) (pg_evaluations pg) false (pg_message pg)).
    rewrite (IH pg1 Hl).
    + subst pg1. simpl. rewrite string_append_assoc. reflexivity.
    + subst pg1. simpl. rewrite string_length_append. simpl. lia.
    + reflexivity.
Qed.

(** ** Claim C3 *)

(** C3 (counterexample): in a duel on "CRANE", alice's sixth miss on the
    game page finishes the game with no winner while bob has not guessed
    at all. *)
Lemma duel_single_exhaustion_counterexample :
  match submitGuess page_five_misses st_duel with
  | Done pg' st' _ =>
      gameStatus st' = Finished /\ winner st' = None /\ pg_gameOver pg' = true /\
      exists p gs, In p (roster st') /\ guesses p = Some gs /\ List.length gs < 6
  | Thrown => False
  end.
Proof.
  vm_compute. split; [reflexivity|]. split; [reflexivity|]. split; [reflexivity|].
  exists bob, []. split; [right; left; reflexivity|]. split; [reflexivity|]. lia.
Qed.

(** C3 (amended): on the game page, a 5-letter guess that misses the
    solution and brings the page's guess list to 6 entries or more sets
    [gameOver] and [gameStatus = finished] and leaves [winner] as it was,
    whatever the other players' attempts; the duel scoreboard shows the draw
    banner exactly when [winner] is null and every player has at least 6
    recorded guesses. *)
Theorem sixth_miss_finishes_page (pg : Page) (st : GameState) (room : Room) (sol : string) :
  currentRoom st = Some room -> solutionWord room = Some sol ->
  String.length (pg_currentGuess pg) = 5 -> pg_currentGuess pg <> sol ->
  5 <= List.length (pg_guesses pg) ->
  (exists pg' st' sent,
     submitGuess pg st = Done pg' st' sent /\
     gameStatus st' = Finished /\ winner st' = winner st /\
     pg_gameOver pg' = true /\ roster st' = roster st) /\
  (forall w ps, duel_draw_banner w ps = true <->
     w = None /\ forall p, In p ps -> exists gs, guesses p = Some gs /\ 6 <= List.length gs).
Proof.
  intros Hr Hs Hlen Hne H5. split.
  - unfold submitGuess. rewrite Hlen. simpl Nat.eqb. cbv iota beta.
    rewrite Hr, Hs.
    destruct (String.eqb_spec (pg_currentGuess pg) sol) as [E|_]; [contradiction|].
    replace (6 <=? List.length (pg_guesses pg ++ [pg_currentGuess pg])) with true
      by (symmetry; apply Nat.leb_le; rewrite length_app; simpl; lia).
    eexists _, _, _. split; [reflexivity|].
    unfold roster. simpl. repeat split; reflexivity.
  - intros [w|] ps; cbn [duel_draw_banner].
    + split; [discriminate|]. intros [H _]. discriminate H.
    + rewrite forallb_forall. split.
      * intro H. split; [reflexivity|]. intros p Hp. specialize (H p Hp).
        destruct (guesses p) as [gs|]; [|discriminate].
        exists gs. split; [reflexivity|]. apply Nat.leb_le. exact H.
      * intros [_ H] p Hp. destruct (H p Hp) as (gs & -> & Hgs).
        apply Nat.leb_le. exact Hgs.
Qed.

Lemma sixth_miss_finishes_page_witness :
  currentRoom st_duel = Some duel_room /\ solutionWord duel_room = Some "CRANE" /\
  String.length (pg_currentGuess page_five_misses) = 5 /\
  pg_currentGuess page_five_misses <> "CRANE" /\
  5 <= List.length (pg_guesses page_five_misses) /\
  exists pg' st' sent,
    submitGuess page_five_misses st_duel = Done pg' st' sent /\
    gameStatus st' = Finished /\ winner st' = winner st_duel /\
    pg_gameOver pg' = true /\ roster st' = roster st_duel.
Proof.
  assert (Hne : pg_currentGuess page_five_misses <> "CRANE") by discriminate.
  split; [reflexivity|]. split; [reflexivity|]. split; [reflexivity|].
  split; [exact Hne|]. split; [simpl; lia|].
  apply (sixth_miss_finishes_page page_five_misses st_duel duel_room "CRANE");
    [reflexivity | reflexivity | reflexivity | exact Hne | simpl; lia].
Defined.

(** ** Claim C4 *)

(** A guess typed on the game page: the submitted guess is the upper-case
    form of the 5 letters typed; it wins when that form equals the
    solution word, and otherwise leaves the winner as it was. *)
Lemma typed_guess_outcome (w : string) (pg : Page) (st : GameState)
    (room : Room) (sol : string) :
  currentRoom st = Some room -> solutionWord room = Some sol ->
  String.length w = 5 -> forallb is_letter (list_ascii_of_string w) = true ->
  pg_currentGuess pg = "" -> pg_gameOver pg = false ->
  exists pg' st' sent,
    type_keys (keys_of w ++ ["Enter"]) pg st = Done pg' st' sent /\
    map em_guess sent = [js_toUpperCase w] /\
    (js_toUpperCase w = sol ->
       winner st' = currentPlayer st /\ gameStatus st' = Finished /\ pg_gameOver pg' = true) /\
    (js_toUpperCase w <> sol -> winner st' = winner st).
Proof.
  intros Hr Hs Hlen Hl Hcg Hover.
  rewrite type_keys_app.
  rewrite (type_letters w pg st Hl); [| rewrite Hcg; simpl; lia | exact Hover].
  rewrite Hcg. simpl (String.append "" _).
  cbn [type_keys]. unfold handleKeyDown.
  replace (js_toUpperCase "Enter") with "ENTER" by reflexivity.
  unfold handleKeyPress, mk_page.
  cbn [pg_gameOver pg_currentGuess pg_guesses pg_evaluations pg_message].
  replace (String.eqb "ENTER" "ENTER") with true by reflexivity. cbv iota.
  unfold submitGuess, mk_page.
  cbn [pg_gameOver pg_currentGuess pg_guesses pg_evaluations pg_message].
  rewrite length_js_toUpperCase, Hlen. simpl Nat.eqb. cbv iota beta.
  rewrite Hr, Hs.
  destruct (String.eqb_spec (js_toUpperCase w) sol) as [E|Ne].
  - eexists _, _, _. split; [reflexivity|]. simpl. split; [reflexivity|].
    split; [intros _; repeat split; reflexivity | intro H; contradiction].
  - cbn [negb]. destruct (6 <=? List.length (pg_guesses pg ++ [js_toUpperCase w])).
    + eexists _, _, _. split; [reflexivity|]. simpl. split; [reflexivity|].
      split; [intro H; contradiction | reflexivity].
    + eexists _, _, _. split; [reflexivity|]. simpl. split; [reflexivity|].
      split; [intro H; contradiction | reflexivity].
Qed.

Lemma upper_chars_fixed (sol : string) :
  forallb is_upper (list_ascii_of_string sol) = true -> js_toUpperCase sol = sol.
Proof.
  induction sol as [|c sol IH]; intro H; [reflexivity|].
  cbn in H. apply andb_prop in H as [Hc H]. cbn [js_toUpperCase].
  rewrite (IH H). f_equal. unfold char_upper.
  replace (is_lower c) with false; [reflexivity|].
  unfold is_upper, is_lower in *. apply andb_prop in Hc as [H1 H2].
  apply Nat.leb_le in H1, H2. symmetry. apply andb_false_iff. left.
  apply Nat.leb_gt. lia.
Qed.

(** C4: with the room's solution word in capital letters, as the data model
    has it, five letters typed on the game page in any case, followed by
    Enter, are submitted and win (winner = the current player, status
    finished, game over) if and only if they equal the solution word up to
    case; a guess that differs up to case leaves the winner unset as it
    was. *)
Theorem typed_guess_wins_iff_ci (w : string) (pg : Page) (st : GameState)
    (room : Room) (sol : string) :
  currentRoom st = Some room -> solutionWord room = Some sol ->
  forallb is_upper (list_ascii_of_string sol) = true ->
  String.length w = 5 -> forallb is_letter (list_ascii_of_string w) = true ->
  pg_currentGuess pg = "" -> pg_gameOver pg = false ->
  exists pg' st' sent,
    type_keys (keys_of w ++ ["Enter"]) pg st = Done pg' st' sent /\
    map em_guess sent = [js_toUpperCase w] /\
    (ci_eqb w sol = true ->
       winner st' = currentPlayer st /\ gameStatus st' = Finished /\ pg_gameOver pg' = true) /\
    (ci_eqb w sol = false -> winner st' = winner st).
Proof.
  intros Hr Hs Hu Hlen Hl Hcg Hover.
  destruct (typed_guess_outcome w pg st room sol Hr Hs Hlen Hl Hcg Hover)
    as (pg' & st' & sent & E & G & Hwin & Hlose).
  exists pg', st', sent. split; [exact E|]. split; [exact G|].
  unfold ci_eqb. rewrite (upper_chars_fixed sol Hu). split.
  - intro H. apply String.eqb_eq in H. exact (Hwin H).
  - intro H. apply String.eqb_neq in H. exact (Hlose H).
Qed.

Lemma typed_guess_wins_iff_ci_witness :
  exists pg' st' sent,
    type_keys (keys_of "crane" ++ ["Enter"]) page0 st_duel = Done pg' st' sent /\
    map em_guess sent = [js_toUpperCase "crane"] /\
    (ci_eqb "crane" "CRANE" = true ->
       winner st' = currentPlayer st_duel /\ gameStatus st' = Finished /\
       pg_gameOver pg' = true) /\
    (ci_eqb "crane" "CRANE" = false -> winner st' = winner st_duel).
Proof.
  apply (typed_guess_wins_iff_ci "crane" page0 st_duel duel_room "CRANE");
    vm_compute; reflexivity.
Defined.

(** ** Room codes *)

Lemma list_ascii_substring0 (k : nat) (s : string) :
  list_ascii_of_string (substring 0 k s) = firstn k (list_ascii_of_string s).
Proof.
  revert k. induction s as [|c s IH]; intros [|k]; simpl; try reflexivity.
  rewrite IH. reflexivity.
Qed.

Lemma list_ascii_js_toUpperCase (s : string) :
  list_ascii_of_string (js_toUpperCase s) = map char_upper (list_ascii_of_string s).
Proof. induction s as [|c s IH]; simpl; congruence. Qed.

Lemma js_substring_2_8_fraction (r : string) :
  js_substring (String "0" (String "." r)) 2 8 = substring 0 (Nat.min 6 (String.length r)) r.
Proof.
  unfold js_substring. cbn [String.length].
  replace (Nat.min 2 (S (S (String.length r)))) with 2 by lia.
  replace (Nat.min 2 (Nat.min 8 (S (S (String.length r))))) with 2 by lia.
  replace (Nat.max 2 (Nat.min 8 (S (S (String.length r)))) - 2)
    with (Nat.min 6 (String.length r)) by lia.
  reflexivity.
Qed.

Lemma firstn_min_length {A} (k : nat) (l : list A) :
  firstn (Nat.min k (List.length l)) l = firstn k l.
Proof.
  destruct (Nat.le_ge_cases k (List.length l)) as [H|H].
  - rewrite Nat.min_l by exact H. reflexivity.
  - rewrite Nat.min_r by exact H. rewrite firstn_all, firstn_all2 by exact H.
    reflexivity.
Qed.

Lemma digit36_code_char (d : nat) :
  d < 36 -> is_code_char (char_upper (digit36 d)) = true.
Proof.
  intro H. do 36 (destruct d as [|d]; [reflexivity|]). lia.
Qed.

Lemma generateRoomCode_chars (ds : list nat) :
  list_ascii_of_string (generateRoomCode ds) =
  map (fun d => char_upper (digit36 d)) (firstn 6 ds).
Proof.
  unfold generateRoomCode. destruct ds as [|d ds'].
  - reflexivity.
  - cbn [number_toString36]. rewrite js_substring_2_8_fraction.
    rewrite list_ascii_js_toUpperCase, list_ascii_substring0.
    rewrite <- length_list_ascii_of_string, list_ascii_of_string_of_list_ascii.
    rewrite length_map, firstn_map, map_map.
    f_equal. apply firstn_min_length.
Qed.

(** C6 (counterexample): [Math.random()] may return 0, whose
    [toString(36)] is ["0"], and 0.5, whose [toString(36)] is ["0.i"]; the
    codes generated are the empty string and ["I"], not 6 characters. *)
Lemma room_code_short_counterexample :
  number_toString36 [] = "0" /\ generateRoomCode [] = "" /\
  number_toString36 [18] = "0.i" /\ generateRoomCode [18] = "I" /\
  String.length (generateRoomCode []) <> 6 /\ String.length (generateRoomCode [18]) <> 6.
Proof. vm_compute. repeat split; discriminate. Qed.

(** ** Word validation *)

Lemma existsb_eqb_In (w : string) (l : list string) :
  existsb (String.eqb w) l = true <-> In w l.
Proof.
  rewrite existsb_exists. split.
  - intros (x & Hx & E). apply String.eqb_eq in E. subst. exact Hx.
  - intro H. exists w. split; [exact H | apply String.eqb_refl].
Qed.

(** C7 (counterexample): no word list makes both checks behave as the
    claim says.  [isValidWord "hello"] holds, so "hello" would have to be
    in the list, yet [validateWord] rejects "hello" whatever the list. *)
Lemma word_checks_counterexample :
  ~ (exists validWords : list string, forall w,
       (isValidWord w = true <->
          String.length w = 5 /\ forallb is_letter (list_ascii_of_string w) = true /\
          In w validWords) /\
       (isValid (validateWord validWords w) = true <->
          String.length w = 5 /\ forallb is_letter (list_ascii_of_string w) = true /\
          In w validWords)).
Proof.
  intros [L H]. destruct (H "hello") as [H1 H2].
  assert (Hin : In "hello" L) by (apply H1; reflexivity).
  assert (Hv : isValid (validateWord L "hello") = true)
    by (apply H2; split; [reflexivity | split; [reflexivity | exact Hin]]).
  discriminate Hv.
Qed.

(** C7 (amended): [isValidWord w] holds exactly when [w] has 5 characters,
    all ASCII letters of either case; it consults no word list.
    [validateWord] marks [w] valid exactly when [w] has 5 characters, all
    uppercase A-Z, and is in the word list; every other word is marked
    invalid. *)
Theorem word_checks_exact (validWords : list string) (w : string) :
  (isValidWord w = true <->
     String.length w = 5 /\ forallb is_letter (list_ascii_of_string w) = true) /\
  (isValid (validateWord validWords w) = true <->
     String.length w = 5 /\ forallb is_upper (list_ascii_of_string w) = true /\
     In w validWords).
Proof.
  split.
  - unfold isValidWord. rewrite !andb_true_iff, Nat.eqb_eq. tauto.
  - unfold validateWord.
    destruct (String.eqb_spec w "") as [->|Hne].
    { simpl. split; [discriminate | intros [H _]; discriminate H]. }
    destruct (Nat.eqb_spec (String.length w) 5) as [Hl|Hl]; cbn [negb].
    2: { simpl. split; [discriminate | intros [H _]; contradiction]. }
    unfold all_upper_nonempty.
    replace (String.eqb w "") with false
      by (symmetry; apply String.eqb_neq; exact Hne).
    cbn [negb andb].
    destruct (forallb is_upper (list_ascii_of_string w)) eqn:Hu; cbn [negb].
    2: { simpl. split; [discriminate | intros (_ & H & _); discriminate H]. }
    destruct (existsb (String.eqb w) validWords) eqn:Hd; simpl.
    + apply existsb_eqb_In in Hd. tauto.
    + split; [discriminate|]. intros (_ & _ & Hin).
      apply existsb_eqb_In in Hin. congruence.
Qed.

(** ** Room creation *)

(** C8: the create-room flow of the lobby page either leaves the store as
    it was (blank username, or the API call failed) or installs as
    [currentRoom] a fresh room of the selected mode, whose [maxPlayers] is
    2 for a duel and 8 for battle royale. *)
Theorem handleCreateRoom_capacity (createRoom : string -> Mode -> option string)
    (username : string) (selectedMode : Mode) (st : GameState) :
  let r := handleCreateRoom createRoom username selectedMode st in
  (fst r = st /\
   (js_trim username = "" \/ createRoom (js_trim username) selectedMode = None)) \/
  (exists c room,
     createRoom (js_trim username) selectedMode = Some c /\
     currentRoom (fst r) = Some room /\ code room = c /\
     room_mode room = selectedMode /\ mode (fst r) = selectedMode /\
     (room_mode room = Duel -> maxPlayers room = 2%Z) /\
     (room_mode room = BattleRoyale -> maxPlayers room = 8%Z)).
Proof.
  cbv zeta. unfold handleCreateRoom.
  destruct (String.eqb_spec (js_trim username) "") as [E|E].
  - left. split; [reflexivity | left; exact E].
  - destruct (createRoom (js_trim username) selectedMode) as [c|] eqn:Hc.
    + right. exists c, (newRoom (js_trim username) c selectedMode).
      split; [reflexivity|]. split; [reflexivity|]. split; [reflexivity|].
      split; [reflexivity|]. split; [reflexivity|].
      destruct selectedMode; simpl; split; intro H; solve [reflexivity | discriminate H].
    + left. split; [reflexivity | right; reflexivity].
Qed.

Example handleCreateRoom_duel :
  maxPlayers (match currentRoom (fst (handleCreateRoom (api_ok "QX7K2P") "  alice " Duel initialState)) with
              | Some r => r | None => duel_room end) = 2%Z /\
  fst (handleCreateRoom (api_ok "QX7K2P") "   " Duel initialState) = initialState.
Proof. split; reflexivity. Qed.

(* ================================================================== *)
(** * Further properties of the code *)

(** ** [evaluateGuess] on any input *)

Lemma first_pass_length (ga : list (option string)) (n : nat) :
  forall s st, s + n <= 5 -> List.length (fst st) <= 5 ->
  List.length (fst (fold_left (first_step ga) (seq s n) st)) <= 5.
Proof.
  induction n as [|n IH]; intros s [ev sa] Hsn Hl; simpl; [exact Hl|].
  apply IH; [lia|]. unfold first_step.
  destruct (js_str_eq (js_get ga s) (js_get sa s)); simpl; [|exact Hl].
  rewrite length_js_set. simpl in Hl. lia.
Qed.

(** The second loop fills every slot it visits and stays within 5 slots. *)
Lemma second_pass_fill (ga : list (option string)) (n : nat) :
  forall s ev sa, s + n <= 5 -> List.length ev <= 5 ->
  (forall j, j < s -> js_get ev j <> None) ->
  let ev' := fst (fold_left (second_step ga) (seq s n) (ev, sa)) in
  List.length ev' <= 5 /\ forall j, j < s + n -> js_get ev' j <> None.
Proof.
  induction n as [|n IH]; intros s ev sa Hsn Hl Hf ev'; subst ev'; simpl.
  - split; [exact Hl|]. intros j Hj. apply Hf. lia.
  - unfold second_step at 2.
    destruct (is_correct_slot (js_get ev s)) eqn:Hc.
    + destruct (IH (S s) ev sa ltac:(lia) Hl) as [H1 H2].
      { intros j Hj. destruct (Nat.eq_dec j s) as [->|]; [|apply Hf; lia].
        destruct (js_get ev s) as [[]|]; discriminate. }
      split; [exact H1|]. intros j Hj. apply H2. lia.
    + destruct (js_indexOf sa (js_get ga s)) as [k|];
        [ destruct (IH (S s) (js_set ev s Present) (js_set sa k "")) as [H1 H2]
        | destruct (IH (S s) (js_set ev s Absent) sa) as [H1 H2] ];
        try lia; try (rewrite length_js_set; lia);
        try (intros j Hj; rewrite js_get_set;
             destruct (Nat.eqb_spec s j); [discriminate|apply Hf; lia]);
        (split; [exact H1 | intros j Hj; apply H2; lia]).
Qed.

Lemma dense_array {A} (l : list (option A)) (d : A) :
  (forall j, j < List.length l -> js_get l j <> None) ->
  l = map Some (map (fun o => match o with Some v => v | None => d end) l).
Proof.
  induction l as [|x t IH]; intro H; [reflexivity|].
  destruct x as [x|].
  - simpl. f_equal. apply IH. intros j Hj. apply (H (S j)). simpl. lia.
  - exfalso. apply (H 0); [simpl; lia | reflexivity].
Qed.

Lemma eval_five_verdicts (guess solution : string) :
  exists vs : list Verdict,
    List.length vs = 5 /\ evaluateGuess guess solution = map Some vs.
Proof.
  unfold evaluateGuess.
  set (ga := js_split guess).
  pose proof (first_pass_length ga 5 0 ([], js_split solution) ltac:(lia) ltac:(simpl; lia))
    as Hl1.
  destruct (fold_left (first_step ga) (seq 0 5) ([], js_split solution)) as [ev1 sa1].
  simpl in Hl1.
  destruct (second_pass_fill ga 5 0 ev1 sa1 ltac:(lia) Hl1 ltac:(intros; lia)) as [Hl2 Hf].
  set (ev := fst (fold_left (second_step ga) (seq 0 5) (ev1, sa1))) in *.
  assert (Hlen : List.length ev = 5).
  { assert (H4 : js_get ev 4 <> None) by (apply Hf; lia).
    destruct (js_get ev 4) eqn:E; [|congruence].
    apply js_get_some_lt in E. lia. }
  exists (map (fun o => match o with Some v => v | None => Absent end) ev).
  split; [rewrite length_map; exact Hlen|].
  apply dense_array. intros j Hj. apply Hf. lia.
Qed.

(** X1.  [evaluateGuess] returns a dense array of exactly five verdicts, for
    every pair of strings, whatever their lengths. *)
Theorem evaluateGuess_five_verdicts (guess solution : string) :
  exists vs : list Verdict,
    List.length vs = 5 /\ evaluateGuess guess solution = map Some vs.
Proof. apply eval_five_verdicts. Qed.

(** Each iteration of either loop writes the evaluation at its own index
    only, and the first loop blanks only its own index of the solution
    array. *)
Lemma first_fold_other (ga : list (option string)) (n : nat) :
  forall s st j, (j < s \/ s + n <= j) ->
  js_get (fst (fold_left (first_step ga) (seq s n) st)) j = js_get (fst st) j /\
  js_get (snd (fold_left (first_step ga) (seq s n) st)) j = js_get (snd st) j.
Proof.
  induction n as [|n IH]; intros s [ev sa] j Hj; cbn [seq fold_left];
    [split; reflexivity|].
  destruct (IH (S s) (first_step ga (ev, sa) s) j ltac:(lia)) as [H1 H2].
  rewrite H1, H2. unfold first_step.
  destruct (js_str_eq (js_get ga s) (js_get sa s)); simpl; [|split; reflexivity].
  rewrite !js_get_set. destruct (Nat.eqb_spec s j); [lia|]. split; reflexivity.
Qed.

Lemma second_fold_other (ga : list (option string)) (n : nat) :
  forall s st j, (j < s \/ s + n <= j) ->
  js_get (fst (fold_left (second_step ga) (seq s n) st)) j = js_get (fst st) j.
Proof.
  induction n as [|n IH]; intros s [ev sa] j Hj; cbn [seq fold_left]; [reflexivity|].
  rewrite (IH (S s) (second_step ga (ev, sa) s) j ltac:(lia)). unfold second_step.
  destruct (is_correct_slot (js_get ev s)); [reflexivity|].
  destruct (js_indexOf sa (js_get ga s)); simpl; rewrite js_get_set;
    destruct (Nat.eqb_spec s j); solve [lia | reflexivity].
Qed.

Lemma js_indexOf_undefined (l : list (option string)) : js_indexOf l None = None.
Proof. destruct l; reflexivity. Qed.

Lemma seq_split_at (j : nat) :
  j < 5 -> seq 0 5 = seq 0 j ++ j :: seq (S j) (4 - j).
Proof.
  intro Hj. replace (j :: seq (S j) (4 - j)) with (seq j (5 - j))
    by (replace (5 - j) with (S (4 - j)) by lia; reflexivity).
  rewrite <- seq_app. f_equal. lia.
Qed.

Lemma js_get_js_split_past (s : string) (j : nat) :
  String.length s <= j -> js_get (js_split s) j = None.
Proof.
  intro H. unfold js_split. rewrite js_get_split.
  rewrite (proj2 (nth_error_None _ j)); [reflexivity|].
  rewrite length_list_ascii_of_string. exact H.
Qed.

Lemma js_get_js_split_lt (s : string) (j : nat) :
  j < String.length s -> exists a, js_get (js_split s) j = Some (String a EmptyString).
Proof.
  intro H. unfold js_split. rewrite js_get_split.
  rewrite <- length_list_ascii_of_string in H.
  destruct (nth_error_some_lt _ j H) as [a Ha]. rewrite Ha. eauto.
Qed.

(** X2.  Past the end of the guess, [evaluateGuess] compares [undefined]
    entries: a position beyond both words is reported [correct]
    ([undefined === undefined]); a position beyond the guess only is
    reported [absent] ([indexOf(undefined)] is [-1]). *)
Theorem evaluateGuess_past_guess_end (guess solution : string) (j : nat) :
  j < 5 -> String.length guess <= j ->
  js_get (evaluateGuess guess solution) j =
    if String.length solution <=? j then Some Correct else Some Absent.
Proof.
  intros Hj Hg. unfold evaluateGuess.
  set (ga := js_split guess). set (sa0 := js_split solution).
  rewrite (seq_split_at j Hj). rewrite !fold_left_app. cbn [fold_left].
  destruct (first_fold_other ga j 0 ([], sa0) j ltac:(lia)) as [E1 S1].
  destruct (fold_left (first_step ga) (seq 0 j) ([], sa0)) as [ev0 sa0'] eqn:F0.
  simpl in E1, S1. rewrite js_get_nil in E1.
  assert (Hgj : js_get ga j = None) by (apply js_get_js_split_past; exact Hg).
  unfold first_step at 2. rewrite Hgj, S1.
  destruct (Nat.leb_spec (String.length solution) j) as [Hs|Hs].
  - rewrite (js_get_js_split_past solution j Hs : js_get sa0 j = None).
    cbn [js_str_eq].
    set (st1 := fold_left (first_step ga) (seq (S j) (4 - j))
                  (js_set ev0 j Correct, js_set sa0' j "")).
    destruct (first_fold_other ga (4 - j) (S j) (js_set ev0 j Correct, js_set sa0' j "") j
                ltac:(lia)) as [E2 _].
    fold st1 in E2. simpl in E2. rewrite js_get_set, Nat.eqb_refl in E2.
    pose proof (second_fold_other ga j 0 st1 j ltac:(lia)) as E3.
    destruct (fold_left (second_step ga) (seq 0 j) st1) as [ev2 sa2] eqn:F2.
    simpl in E3. rewrite E2 in E3.
    rewrite (second_fold_other ga (4 - j) (S j)) by lia.
    unfold second_step. rewrite E3. exact E3.
  - destruct (js_get_js_split_lt solution j Hs) as [a Ha]. fold sa0 in Ha.
    rewrite Ha. cbn [js_str_eq].
    set (st1 := fold_left (first_step ga) (seq (S j) (4 - j)) (ev0, sa0')).
    destruct (first_fold_other ga (4 - j) (S j) (ev0, sa0') j ltac:(lia)) as [E2 _].
    fold st1 in E2. simpl in E2. rewrite E1 in E2.
    pose proof (second_fold_other ga j 0 st1 j ltac:(lia)) as E3.
    destruct (fold_left (second_step ga) (seq 0 j) st1) as [ev2 sa2] eqn:F2.
    simpl in E3. rewrite E2 in E3.
    rewrite (second_fold_other ga (4 - j) (S j)) by lia.
    unfold second_step. rewrite E3, Hgj. cbn [is_correct_slot js_indexOf].
    rewrite js_indexOf_undefined. cbn [fst]. rewrite js_get_set, Nat.eqb_refl. reflexivity.
Qed.

Lemma evaluateGuess_past_guess_end_witness :
  (2 < 5 /\ String.length "AB" <= 2 /\
   js_get (evaluateGuess "AB" "AB") 2 =
     if String.length "AB" <=? 2 then Some Correct else Some Absent) /\
  (3 < 5 /\ String.length "AB" <= 3 /\
   js_get (evaluateGuess "AB" "CRANE") 3 =
     if String.length "CRANE" <=? 3 then Some Correct else Some Absent).
Proof.
  split.
  - split; [lia|]. split; [simpl; lia|].
    apply evaluateGuess_past_guess_end; simpl; lia.
  - split; [lia|]. split; [simpl; lia|].
    apply evaluateGuess_past_guess_end; simpl; lia.
Defined.

(** ** [evaluateGuess] on 5-letter words: consequences of the two passes *)

Lemma hits_second_pass_exact (gl : list ascii) (marks : list bool) (m : mset) (c : ascii) :
  hits_of gl (map Some (spec_second_pass gl marks m)) c =
  marked_count c gl marks + Nat.min (unmarked_count c gl marks) (m c).
Proof.
  revert marks m; induction gl as [|a gl IH]; intros [|b marks] m; simpl; try lia.
  destruct b.
  - simpl. specialize (IH marks m). destruct (ascii_dec a c); lia.
  - destruct (Nat.ltb_spec 0 (m a)); simpl.
    + specialize (IH marks (mset_remove m a)). unfold mset_remove at 2 in IH.
      destruct (ascii_dec a c) as [<-|Hac].
      * destruct (ascii_dec a a); [|congruence]. lia.
      * destruct (ascii_dec c a); [congruence|]. lia.
    + specialize (IH marks m). destruct (ascii_dec a c) as [<-|]; lia.
Qed.

Lemma marked_unmarked (gl : list ascii) (marks : list bool) (c : ascii) :
  List.length marks = List.length gl ->
  marked_count c gl marks + unmarked_count c gl marks = count_occ ascii_dec gl c.
Proof.
  revert marks; induction gl as [|a gl IH]; intros [|b marks] Hl; simpl in *; try lia.
  specialize (IH marks ltac:(lia)).
  destruct b, (ascii_dec a c); lia.
Qed.

(** X3.  For 5-letter words, every letter [c] is reported [correct] or
    [present] exactly [min(#c in guess, #c in solution)] times. *)
Theorem evaluateGuess_hits_exact (guess solution : string) (c : ascii) :
  String.length guess = 5 -> String.length solution = 5 ->
  hits_of (list_ascii_of_string guess) (evaluateGuess guess solution) c =
  Nat.min (count_occ ascii_dec (list_ascii_of_string guess) c)
          (count_occ ascii_dec (list_ascii_of_string solution) c).
Proof.
  intros Hg Hs. rewrite evaluateGuess_two_pass by assumption.
  unfold wordle_two_pass.
  rewrite <- length_list_ascii_of_string in Hg, Hs.
  set (gl := list_ascii_of_string guess) in *.
  set (sl := list_ascii_of_string solution) in *.
  pose proof (marked_count_first_pass gl sl (mset_of sl) c) as H1.
  pose proof (spec_first_pass_mset gl sl (mset_of sl) c
                (fun x => corr_count_le gl sl x)) as H2.
  pose proof (length_spec_first_pass gl sl (mset_of sl)) as H3.
  destruct (spec_first_pass gl sl (mset_of sl)) as [marks m1] eqn:E.
  simpl in H1, H2, H3. unfold mset_of in H2.
  rewrite hits_second_pass_exact.
  pose proof (marked_unmarked gl marks c ltac:(lia)) as H4.
  lia.
Qed.

Lemma evaluateGuess_hits_exact_witness :
  String.length "EERIE" = 5 /\ String.length "THERE" = 5 /\
  hits_of (list_ascii_of_string "EERIE") (evaluateGuess "EERIE" "THERE") "E"%char = 2 /\
  hits_of (list_ascii_of_string "EERIE") (evaluateGuess "EERIE" "THERE") "E"%char =
  Nat.min (count_occ ascii_dec (list_ascii_of_string "EERIE") "E"%char)
          (count_occ ascii_dec (list_ascii_of_string "THERE") "E"%char).
Proof.
  split; [reflexivity|]. split; [reflexivity|]. split; [reflexivity|].
  apply evaluateGuess_hits_exact; reflexivity.
Defined.

Lemma second_pass_correct_iff (gl : list ascii) (marks : list bool) (m : mset) (j : nat) :
  j < List.length gl -> j < List.length marks ->
  (nth_error (spec_second_pass gl marks m) j = Some Correct <->
   nth_error marks j = Some true).
Proof.
  revert marks m j; induction gl as [|a gl IH]; intros [|b marks] m j Hj Hm;
    simpl in *; try lia.
  destruct b; [|destruct (Nat.ltb 0 (m a))]; (destruct j as [|j];
    [ simpl; split; intro H; solve [reflexivity | discriminate H | inversion H]
    | simpl; apply IH; lia ]).
Qed.

Lemma second_pass_absent (gl : list ascii) (marks : list bool) (m : mset) (j : nat) (a : ascii) :
  nth_error gl j = Some a -> nth_error marks j = Some false -> m a = 0 ->
  nth_error (spec_second_pass gl marks m) j = Some Absent.
Proof.
  revert marks m j; induction gl as [|x gl IH]; intros [|b marks] m j Hg Hmk Hma;
    [destruct j; discriminate | destruct j; discriminate | destruct j; discriminate|].
  destruct j as [|j]; simpl in Hg, Hmk.
  - inversion Hg; inversion Hmk; subst. simpl.
    replace (Nat.ltb 0 (m a)) with false by (symmetry; apply Nat.ltb_ge; lia). reflexivity.
  - simpl. destruct b; [apply IH; assumption|].
    destruct (Nat.ltb 0 (m x)); simpl; apply IH; try assumption.
    unfold mset_remove. destruct (ascii_dec a x); lia.
Qed.

Lemma corr_true_iff (gl sl : list ascii) (j : nat) :
  corr gl sl j = true <-> exists a, nth_error gl j = Some a /\ nth_error sl j = Some a.
Proof.
  unfold corr. destruct (nth_error gl j) as [a|], (nth_error sl j) as [b|].
  - destruct (ascii_dec a b) as [<-|Hab].
    + split; [intros _; eauto | reflexivity].
    + split; [discriminate | intros (x & Hx & Hy); congruence].
  - split; [discriminate | intros (x & _ & Hy); discriminate].
  - split; [discriminate | intros (x & Hx & _); discriminate].
  - split; [discriminate | intros (x & Hx & _); discriminate].
Qed.

(** Shared set-up: the verdict at [j] of two 5-letter words, read off the
    two passes. *)
Lemma evaluateGuess_nth (guess solution : string) (j : nat) :
  String.length guess = 5 -> String.length solution = 5 ->
  let gl := list_ascii_of_string guess in
  let sl := list_ascii_of_string solution in
  let '(marks, m1) := spec_first_pass gl sl (mset_of sl) in
  nth_error (evaluateGuess guess solution) j =
    option_map Some (nth_error (spec_second_pass gl marks m1) j) /\
  (j < 5 -> nth_error marks j = Some (corr gl sl j)) /\
  List.length marks = 5 /\
  (forall c, m1 c + corr_count c gl sl = count_occ ascii_dec sl c).
Proof.
  intros Hg Hs gl sl. rewrite evaluateGuess_two_pass by assumption.
  unfold wordle_two_pass. fold gl sl.
  rewrite <- length_list_ascii_of_string in Hg, Hs. fold gl in Hg. fold sl in Hs.
  pose proof (spec_first_pass_marks gl sl (mset_of sl) j) as Hmk.
  pose proof (length_spec_first_pass gl sl (mset_of sl)) as Hl.
  pose proof (fun c => spec_first_pass_mset gl sl (mset_of sl) c
                (fun x => corr_count_le gl sl x)) as Hms.
  destruct (spec_first_pass gl sl (mset_of sl)) as [marks m1] eqn:E.
  simpl in Hmk, Hl, Hms. split; [|split; [|split]].
  - rewrite nth_error_map. reflexivity.
  - intro Hj. rewrite Hmk.
    destruct (nth_error_some_lt gl j ltac:(lia)) as [a Ha].
    destruct (nth_error_some_lt sl j ltac:(lia)) as [b Hb].
    rewrite Ha, Hb. reflexivity.
  - lia.
  - exact Hms.
Qed.

Lemma eval_correct_iff (guess solution : string) (j : nat) :
  String.length guess = 5 -> String.length solution = 5 -> j < 5 ->
  (nth_error (evaluateGuess guess solution) j = Some (Some Correct) <->
   exists a, nth_error (list_ascii_of_string guess) j = Some a /\
             nth_error (list_ascii_of_string solution) j = Some a).
Proof.
  intros Hg Hs Hj. pose proof (evaluateGuess_nth guess solution j Hg Hs) as H.
  cbv zeta in H.
  destruct (spec_first_pass (list_ascii_of_string guess) (list_ascii_of_string solution)
              (mset_of (list_ascii_of_string solution))) as [marks m1].
  destruct H as (Hn & Hmk & Hl & _). rewrite Hn, <- corr_true_iff.
  transitivity (nth_error marks j = Some true).
  - rewrite <- (second_pass_correct_iff (list_ascii_of_string guess) marks m1 j)
      by (rewrite ?length_list_ascii_of_string; lia).
    destruct (nth_error (spec_second_pass _ marks m1) j) as [v|]; simpl.
    + split; intro E; inversion E; reflexivity.
    + split; discriminate.
  - rewrite (Hmk Hj). split; [intro E; inversion E; reflexivity | intros ->; reflexivity].
Qed.

(** X4.  For 5-letter words, position [j] is reported [correct] exactly when
    guess and solution hold the same letter there. *)
Theorem evaluateGuess_correct_iff (guess solution : string) (j : nat) :
  String.length guess = 5 -> String.length solution = 5 -> j < 5 ->
  (nth_error (evaluateGuess guess solution) j = Some (Some Correct) <->
   exists a, nth_error (list_ascii_of_string guess) j = Some a /\
             nth_error (list_ascii_of_string solution) j = Some a).
Proof. apply eval_correct_iff. Qed.

Lemma evaluateGuess_correct_iff_witness :
  String.length "SPEED" = 5 /\ String.length "ERASE" = 5 /\ 4 < 5 /\
  (nth_error (evaluateGuess "SPEED" "ERASE") 4 = Some (Some Correct) <->
   exists a, nth_error (list_ascii_of_string "SPEED") 4 = Some a /\
             nth_error (list_ascii_of_string "ERASE") 4 = Some a).
Proof.
  split; [reflexivity|]. split; [reflexivity|]. split; [lia|].
  apply evaluateGuess_correct_iff; [reflexivity | reflexivity | lia].
Defined.

(** X5.  For 5-letter words, a letter of the guess that does not occur in the
    solution is reported [absent]. *)
Theorem evaluateGuess_missing_letter_absent (guess solution : string) (j : nat) (a : ascii) :
  String.length guess = 5 -> String.length solution = 5 ->
  nth_error (list_ascii_of_string guess) j = Some a ->
  ~ In a (list_ascii_of_string solution) ->
  nth_error (evaluateGuess guess solution) j = Some (Some Absent).
Proof.
  intros Hg Hs Ha Hnot.
  assert (Hj : j < 5).
  { assert (H : nth_error (list_ascii_of_string guess) j <> None) by congruence.
    apply nth_error_Some in H. rewrite length_list_ascii_of_string in H. lia. }
  pose proof (evaluateGuess_nth guess solution j Hg Hs) as H.
  cbv zeta in H.
  destruct (spec_first_pass (list_ascii_of_string guess) (list_ascii_of_string solution)
              (mset_of (list_ascii_of_string solution))) as [marks m1].
  destruct H as (Hn & Hmk & Hl & Hms). rewrite Hn.
  assert (Hc : corr (list_ascii_of_string guess) (list_ascii_of_string solution) j = false).
  { destruct (corr _ _ j) eqn:E; [|reflexivity].
    apply corr_true_iff in E as (x & Hx & Hy). rewrite Ha in Hx. inversion Hx; subst.
    exfalso. apply Hnot. eapply nth_error_In. exact Hy. }
  rewrite Hc in Hmk.
  rewrite (second_pass_absent _ marks m1 j a Ha (Hmk Hj)); [reflexivity|].
  specialize (Hms a). apply (count_occ_not_In ascii_dec) in Hnot. lia.
Qed.

Lemma evaluateGuess_missing_letter_absent_witness :
  String.length "SPEED" = 5 /\ String.length "CRANE" = 5 /\
  nth_error (list_ascii_of_string "SPEED") 0 = Some "S"%char /\
  ~ In "S"%char (list_ascii_of_string "CRANE") /\
  nth_error (evaluateGuess "SPEED" "CRANE") 0 = Some (Some Absent).
Proof.
  assert (Hn : ~ In "S"%char (list_ascii_of_string "CRANE"))
    by (simpl; intuition discriminate).
  split; [reflexivity|]. split; [reflexivity|]. split; [reflexivity|].
  split; [exact Hn|].
  apply (evaluateGuess_missing_letter_absent "SPEED" "CRANE" 0 "S"%char);
    [reflexivity | reflexivity | reflexivity | exact Hn].
Defined.

Lemma string_eq_list_ascii (a b : string) :
  list_ascii_of_string a = list_ascii_of_string b -> a = b.
Proof.
  intro H. rewrite <- (string_of_list_ascii_of_string a), <- (string_of_list_ascii_of_string b).
  rewrite H. reflexivity.
Qed.

(** X6.  For 5-letter words, the evaluation is five [correct] verdicts exactly
    when the guess equals the solution. *)
Theorem evaluateGuess_all_correct_iff (guess solution : string) :
  String.length guess = 5 -> String.length solution = 5 ->
  (evaluateGuess guess solution = repeat (Some Correct) 5 <-> guess = solution).
Proof.
  intros Hg Hs.
  pose proof (length_list_ascii_of_string guess) as Lg.
  pose proof (length_list_ascii_of_string solution) as Ls.
  split.
  - intro E. apply string_eq_list_ascii. apply nth_error_ext. intro j.
    destruct (Nat.lt_ge_cases j 5) as [Hj|Hj].
    + assert (Hc : nth_error (evaluateGuess guess solution) j = Some (Some Correct))
        by (rewrite E; apply nth_error_repeat; exact Hj).
      apply (eval_correct_iff guess solution j Hg Hs Hj) in Hc as (a & Ha & Hb).
      congruence.
    + rewrite (proj2 (nth_error_None (list_ascii_of_string guess) j)) by lia.
      rewrite (proj2 (nth_error_None (list_ascii_of_string solution) j)) by lia.
      reflexivity.
  - intros <-. destruct (eval_five_verdicts guess guess) as (vs & Hl & Hv).
    apply nth_error_ext. intro j.
    destruct (Nat.lt_ge_cases j 5) as [Hj|Hj].
    + rewrite nth_error_repeat by exact Hj.
      apply (eval_correct_iff guess guess j Hg Hg Hj).
      destruct (nth_error_some_lt (list_ascii_of_string guess) j ltac:(lia)) as [a Ha].
      eauto.
    + rewrite Hv, nth_error_map.
      rewrite (proj2 (nth_error_None vs j)) by lia.
      rewrite (proj2 (nth_error_None (repeat (Some Correct) 5) j))
        by (rewrite repeat_length; lia).
      reflexivity.
Qed.

Lemma evaluateGuess_all_correct_iff_witness :
  String.length "CRANE" = 5 /\
  (evaluateGuess "CRANE" "CRANE" = repeat (Some Correct) 5 <-> "CRANE" = "CRANE").
Proof.
  split; [reflexivity|]. apply evaluateGuess_all_correct_iff; reflexivity.
Defined.

(** ** The store: derived player lists, round trips *)

Lemma lists_derived_set_room_lists (st : GameState) (r : Room) :
  lists_derived (set_room_lists st r).
Proof. split; reflexivity. Qed.

(** X7.  Every action other than [setActivePlayers], [setEliminatedPlayers] and
    [resetGame] keeps [activePlayers] and [eliminatedPlayers] equal to the
    non-eliminated players and the eliminated players' ids of
    [currentRoom.players]; [setCurrentRoom] establishes this from any
    state. *)
Theorem store_lists_derived (op : StoreOp) (st : GameState) :
  derives_lists_op op -> lists_derived st -> lists_derived (apply_op op st).
Proof.
  intros Hop Hd. destruct op; simpl in Hop; try contradiction; simpl;
    try exact Hd; try (split; reflexivity).
  - unfold addPlayer. destruct (currentRoom st); [split; reflexivity | exact Hd].
  - unfold removePlayer. destruct (currentRoom st); [split; reflexivity | exact Hd].
  - unfold updatePlayer. destruct (currentRoom st); [split; reflexivity | exact Hd].
  - unfold eliminatePlayer. destruct (currentRoom st); [split; reflexivity | exact Hd].
Qed.

Lemma store_lists_derived_witness :
  derives_lists_op (OpEliminatePlayer "bob") /\ lists_derived st_duel /\
  lists_derived (apply_op (OpEliminatePlayer "bob") st_duel).
Proof.
  assert (H : lists_derived st_duel) by (split; reflexivity).
  split; [exact I|]. split; [exact H|].
  apply store_lists_derived; [exact I | exact H].
Defined.

Lemma with_players_same (r : Room) : with_players r (players r) = r.
Proof. destruct r; reflexivity. Qed.

Lemma with_players_twice (r : Room) (ps qs : list Player) :
  with_players (with_players r ps) qs = with_players r qs.
Proof. reflexivity. Qed.

Lemma set_room_lists_twice (st : GameState) (r1 r2 : Room) :
  set_room_lists (set_room_lists st r1) r2 = set_room_lists st r2.
Proof. reflexivity. Qed.

(** With derived lists, re-installing the current room changes nothing. *)
Lemma set_room_lists_same (st : GameState) (r : Room) :
  currentRoom st = Some r -> lists_derived st -> set_room_lists st r = st.
Proof.
  intros Hr [Ha He]. unfold roster in Ha, He. rewrite Hr in Ha, He.
  destruct st; simpl in *. subst. reflexivity.
Qed.

Lemma filter_all_true {A} (f : A -> bool) (l : list A) :
  (forall x, In x l -> f x = true) -> filter f l = l.
Proof.
  induction l as [|x t IH]; intro H; simpl; [reflexivity|].
  rewrite (H x (or_introl eq_refl)). f_equal. apply IH. intros y Hy. apply H. right. exact Hy.
Qed.

(** X8.  [addPlayer(p)] followed by [removePlayer(p.id)] gives back the same
    store, when the room is set, the lists are derived, and no player of the
    room has [p]'s id. *)
Theorem add_then_remove_player (st : GameState) (r : Room) (p : Player) :
  currentRoom st = Some r -> lists_derived st -> ~ In (id p) (map id (players r)) ->
  removePlayer (id p) (addPlayer p st) = st.
Proof.
  intros Hr Hd Hnot. unfold addPlayer. rewrite Hr. unfold removePlayer. simpl.
  rewrite filter_app. cbn [filter]. rewrite String.eqb_refl. cbn [negb]. rewrite app_nil_r.
  rewrite filter_all_true.
  - rewrite set_room_lists_twice, with_players_twice, with_players_same.
    apply set_room_lists_same; assumption.
  - intros q Hq. apply negb_true_iff, String.eqb_neq. intro E. apply Hnot.
    rewrite <- E. apply in_map. exact Hq.
Qed.

Lemma add_then_remove_player_witness :
  currentRoom st_duel = Some duel_room /\ lists_derived st_duel /\
  ~ In (id (mk_player "carol" [])) (map id (players duel_room)) /\
  removePlayer (id (mk_player "carol" [])) (addPlayer (mk_player "carol" []) st_duel) = st_duel.
Proof.
  assert (H1 : currentRoom st_duel = Some duel_room) by reflexivity.
  assert (H2 : lists_derived st_duel) by (split; reflexivity).
  assert (H3 : ~ In (id (mk_player "carol" [])) (map id (players duel_room)))
    by (simpl; intuition discriminate).
  split; [exact H1|]. split; [exact H2|]. split; [exact H3|].
  exact (add_then_remove_player st_duel duel_room (mk_player "carol" []) H1 H2 H3).
Defined.

Lemma map_idem {A} (f : A -> A) (l : list A) :
  (forall x, f (f x) = f x) -> map f (map f l) = map f l.
Proof. intro H. rewrite map_map. apply map_ext. exact H. Qed.

(** X9.  Eliminating the same player twice is the same as once. *)
Theorem eliminatePlayer_idempotent (pid : string) (st : GameState) :
  eliminatePlayer pid (eliminatePlayer pid st) = eliminatePlayer pid st.
Proof.
  unfold eliminatePlayer. destruct (currentRoom st) as [r|] eqn:Hr.
  - simpl.
    rewrite set_room_lists_twice, with_players_twice. f_equal. f_equal.
    apply map_idem. intro q. destruct (String.eqb_spec (id q) pid) as [E|E]; simpl.
    + rewrite E, String.eqb_refl. reflexivity.
    + apply String.eqb_neq in E. rewrite E. reflexivity.
  - unfold eliminatePlayer. rewrite Hr. reflexivity.
Qed.

(** X10.  Removing a player after eliminating it is the same as removing it. *)
Theorem remove_after_eliminate (pid : string) (st : GameState) :
  removePlayer pid (eliminatePlayer pid st) = removePlayer pid st.
Proof.
  unfold eliminatePlayer. destruct (currentRoom st) as [r|] eqn:Hr; [|reflexivity].
  unfold removePlayer. rewrite Hr. simpl.
  rewrite set_room_lists_twice, with_players_twice. f_equal. f_equal.
  induction (players r) as [|q t IH]; [reflexivity|]. simpl.
  destruct (String.eqb_spec (id q) pid) as [E|E]; simpl.
  - rewrite E, String.eqb_refl. exact IH.
  - apply String.eqb_neq in E. rewrite E. simpl. f_equal. exact IH.
Qed.

Lemma map_id_on {A} (f : A -> A) (l : list A) :
  (forall x, In x l -> f x = x) -> map f l = l.
Proof.
  induction l as [|x t IH]; intro H; simpl; [reflexivity|].
  rewrite (H x (or_introl eq_refl)). f_equal. apply IH. intros y Hy. apply H. right. exact Hy.
Qed.

(** X11.  [removePlayer], [updatePlayer] and [eliminatePlayer] on an id that no
    player of the room has leave the store unchanged (when the lists are
    derived). *)
Theorem unknown_id_noop (pid : string) (u : PlayerUpdate) (st : GameState) :
  lists_derived st -> ~ In pid (map id (roster st)) ->
  removePlayer pid st = st /\ updatePlayer pid u st = st /\ eliminatePlayer pid st = st.
Proof.
  intros Hd Hnot. unfold roster in Hnot.
  unfold removePlayer, updatePlayer, eliminatePlayer.
  destruct (currentRoom st) as [r|] eqn:Hr; [|repeat split].
  assert (Hne : forall q, In q (players r) -> String.eqb (id q) pid = false).
  { intros q Hq. apply String.eqb_neq. intro E. apply Hnot. rewrite <- E. apply in_map. exact Hq. }
  repeat split.
  - rewrite filter_all_true.
    + rewrite with_players_same. apply set_room_lists_same; assumption.
    + intros q Hq. rewrite (Hne q Hq). reflexivity.
  - rewrite map_id_on.
    + rewrite with_players_same. apply set_room_lists_same; assumption.
    + intros q Hq. rewrite (Hne q Hq). reflexivity.
  - rewrite map_id_on.
    + rewrite with_players_same. apply set_room_lists_same; assumption.
    + intros q Hq. rewrite (Hne q Hq). reflexivity.
Qed.

Lemma unknown_id_noop_witness :
  lists_derived st_duel /\ ~ In "carol" (map id (roster st_duel)) /\
  removePlayer "carol" st_duel = st_duel /\
  updatePlayer "carol" {| u_id := None; u_username := None; u_score := Some 3%Z;
                          u_eliminated := None; u_guesses := None; u_won := None |} st_duel
    = st_duel /\
  eliminatePlayer "carol" st_duel = st_duel.
Proof.
  assert (H1 : lists_derived st_duel) by (split; reflexivity).
  assert (H2 : ~ In "carol" (map id (roster st_duel))) by (simpl; intuition discriminate).
  split; [exact H1|]. split; [exact H2|].
  exact (unknown_id_noop "carol" {| u_id := None; u_username := None; u_score := Some 3%Z;
                          u_eliminated := None; u_guesses := None; u_won := None |}
           st_duel H1 H2).
Defined.

(** ** The game page: what a key press can do *)

Lemma submitGuess_cases (pg pg' : Page) (st st' : GameState) (sent : list Emitted) :
  submitGuess pg st = Done pg' st' sent ->
  (pg' = pg /\ st' = st /\ sent = []) \/
  (String.length (pg_currentGuess pg) = 5 /\
   exists room sol,
     currentRoom st = Some room /\ solutionWord room = Some sol /\
     sent = [{| em_roomCode := code room; em_username := currentPlayer st;
                em_guess := pg_currentGuess pg; em_board := gameBoard st |}] /\
     pg_currentGuess pg' = "" /\
     pg_guesses pg' = pg_guesses pg ++ [pg_currentGuess pg] /\
     pg_evaluations pg' = pg_evaluations pg ++ [evaluateGuess (pg_currentGuess pg) sol] /\
     ((pg_currentGuess pg = sol /\ pg_gameOver pg' = true /\
       st' = setGameStatus Finished (setWinner (currentPlayer st) st)) \/
      (pg_currentGuess pg <> sol /\ 6 <= List.length (pg_guesses pg') /\
       pg_gameOver pg' = true /\ st' = setGameStatus Finished st) \/
      (pg_currentGuess pg <> sol /\ List.length (pg_guesses pg') < 6 /\
       pg_gameOver pg' = pg_gameOver pg /\ st' = st))).
Proof.
  unfold submitGuess. intro H.
  destruct (Nat.eqb_spec (String.length (pg_currentGuess pg)) 5) as [Hl|Hl]; cbn [negb] in H.
  2: { inversion H; subst. left. auto. }
  destruct (currentRoom st) as [room|] eqn:Hr; [|inversion H; subst; left; auto].
  destruct (solutionWord room) as [sol|] eqn:Hs; [|discriminate H].
  right. split; [exact Hl|]. exists room, sol. split; [reflexivity|]. split; [exact Hs|].
  destruct (String.eqb_spec (pg_currentGuess pg) sol) as [E|E].
  - inversion H; subst. repeat split; try reflexivity. left. auto.
  - destruct (Nat.leb_spec 6 (List.length (pg_guesses pg ++ [pg_currentGuess pg]))) as [L|L];
      inversion H; subst; (repeat split; try reflexivity); right; [left|right];
      simpl; auto.
Qed.

Lemma handleKeyPress_cases (k : string) (pg pg' : Page) (st st' : GameState)
    (sent : list Emitted) :
  handleKeyPress k pg st = Done pg' st' sent ->
  (pg' = pg /\ st' = st /\ sent = []) \/
  (pg_gameOver pg = false /\ st' = st /\ sent = [] /\
   pg' = mk_page (js_slice_drop_last (pg_currentGuess pg)) (pg_guesses pg)
           (pg_evaluations pg) (pg_gameOver pg) (pg_message pg)) \/
  (pg_gameOver pg = false /\ st' = st /\ sent = [] /\
   is_single_AZ k = true /\ String.length (pg_currentGuess pg) < 5 /\
   pg' = mk_page (pg_currentGuess pg ++ k) (pg_guesses pg)
           (pg_evaluations pg) (pg_gameOver pg) (pg_message pg)) \/
  (pg_gameOver pg = false /\ submitGuess pg st = Done pg' st' sent).
Proof.
  unfold handleKeyPress. intro H.
  destruct (pg_gameOver pg) eqn:Ho; [inversion H; subst; left; auto|].
  destruct (String.eqb k "ENTER"); [right; right; right; auto|].
  destruct (String.eqb k "BACKSPACE"); [inversion H; subst; right; left; auto|].
  destruct (is_single_AZ k) eqn:Ha; cbn [andb] in H.
  - destruct (Nat.ltb_spec (String.length (pg_currentGuess pg)) 5) as [L|L].
    + inversion H; subst. right; right; left. repeat split; auto.
    + inversion H; subst. left. auto.
  - inversion H; subst. left. auto.
Qed.

(** A property of page and store kept by every key press is kept by any
    sequence of key events. *)
Lemma type_keys_preserve (I : Page -> GameState -> Prop) :
  (forall k pg st pg' st' sent, I pg st -> handleKeyPress k pg st = Done pg' st' sent ->
     I pg' st') ->
  forall ks pg st pg' st' sent, I pg st -> type_keys ks pg st = Done pg' st' sent ->
  I pg' st'.
Proof.
  intros Hstep ks. induction ks as [|k ks IH]; intros pg st pg' st' sent HI H; simpl in H.
  - inversion H; subst. exact HI.
  - unfold handleKeyDown in H.
    destruct (handleKeyPress (js_toUpperCase k) pg st) as [pg1 st1 s1|] eqn:E1;
      [|discriminate].
    destruct (type_keys ks pg1 st1) as [pg2 st2 s2|] eqn:E2; [|discriminate].
    inversion H; subst. eapply IH; [eapply Hstep; eauto | exact E2].
Qed.

Lemma list_ascii_of_string_append (a b : string) :
  list_ascii_of_string (a ++ b) = list_ascii_of_string a ++ list_ascii_of_string b.
Proof. induction a as [|c a IH]; simpl; [reflexivity | rewrite IH; reflexivity]. Qed.

Lemma forallb_firstn {A} (f : A -> bool) (k : nat) (l : list A) :
  forallb f l = true -> forallb f (firstn k l) = true.
Proof.
  revert k. induction l as [|x l IH]; intros [|k] H; simpl in *; try reflexivity.
  apply andb_prop in H as [H1 H2]. rewrite H1, (IH k H2). reflexivity.
Qed.

Lemma handleKeyPress_shape (k : string) (pg pg' : Page) (st st' : GameState)
    (sent : list Emitted) :
  guess_shape_ok pg -> handleKeyPress k pg st = Done pg' st' sent -> guess_shape_ok pg'.
Proof.
  intros [Hl Hu] H. apply handleKeyPress_cases in H.
  destruct H as [(-> & _ & _) | [(_ & _ & _ & ->) | [(_ & _ & _ & Ha & L & ->) | (_ & H)]]].
  - split; assumption.
  - unfold guess_shape_ok, mk_page, js_slice_drop_last; cbn [pg_currentGuess].
    rewrite <- !length_list_ascii_of_string, list_ascii_substring0 in *.
    split.
    + rewrite length_firstn. lia.
    + apply forallb_firstn. exact Hu.
  - unfold guess_shape_ok, mk_page; cbn [pg_currentGuess].
    destruct k as [|c [|c' k]]; try discriminate Ha. cbn [is_single_AZ] in Ha.
    rewrite <- !length_list_ascii_of_string in *.
    rewrite list_ascii_of_string_append, length_app, forallb_app, Hu.
    cbn. rewrite Ha. split; [lia | reflexivity].
  - apply submitGuess_cases in H.
    destruct H as [(-> & _ & _) | (_ & room & sol & _ & _ & _ & Hc & _)].
    + split; assumption.
    + unfold guess_shape_ok. rewrite Hc. cbn. split; [lia | reflexivity].
Qed.

Lemma handleKeyPress_cap (k : string) (pg pg' : Page) (st st' : GameState)
    (sent : list Emitted) :
  guess_cap_ok pg -> handleKeyPress k pg st = Done pg' st' sent -> guess_cap_ok pg'.
Proof.
  intros [H6 H5] H. apply handleKeyPress_cases in H.
  destruct H as [(-> & _ & _) | [(_ & _ & _ & ->) | [(_ & _ & _ & _ & _ & ->) | (Ho & H)]]].
  - split; assumption.
  - split; assumption.
  - split; assumption.
  - specialize (H5 Ho). apply submitGuess_cases in H.
    destruct H as [(-> & _ & _) | (_ & room & sol & _ & _ & _ & _ & Hg & _ & C)].
    + split; [assumption | intros _; exact H5].
    + unfold guess_cap_ok. rewrite Hg, length_app. cbn [List.length]. split; [lia|].
      intro Hf.
      destruct C as [(_ & Ht & _) | [(_ & _ & Ht & _) | (_ & Hlt & _)]];
        [congruence | congruence | rewrite Hg, length_app in Hlt; cbn in Hlt; lia].
Qed.

Lemma handleKeyPress_appends (k : string) (pg pg' : Page) (st st' : GameState)
    (sent : list Emitted) :
  handleKeyPress k pg st = Done pg' st' sent ->
  pg_guesses pg' = pg_guesses pg ++ map em_guess sent /\
  List.length (pg_evaluations pg') = List.length (pg_evaluations pg) + List.length sent.
Proof.
  intro H. apply handleKeyPress_cases in H.
  destruct H as [(-> & _ & ->) | [(_ & _ & -> & ->) | [(_ & _ & -> & _ & _ & ->) | (_ & H)]]];
    try (cbn; rewrite app_nil_r, Nat.add_0_r; split; reflexivity).
  apply submitGuess_cases in H.
  destruct H as [(-> & _ & ->) | (_ & room & sol & _ & _ & -> & _ & Hg & He & _)].
  - cbn. rewrite app_nil_r, Nat.add_0_r. split; reflexivity.
  - rewrite Hg, He, length_app. cbn. split; reflexivity.
Qed.

Lemma handleKeyPress_store (k : string) (pg pg' : Page) (st st' : GameState)
    (sent : list Emitted) :
  handleKeyPress k pg st = Done pg' st' sent ->
  st' = st \/
  (pg_gameOver pg' = true /\
   (st' = setGameStatus Finished st \/
    st' = setGameStatus Finished (setWinner (currentPlayer st) st))).
Proof.
  intro H. apply handleKeyPress_cases in H.
  destruct H as [(_ & -> & _) | [(_ & -> & _) | [(_ & -> & _) | (_ & H)]]]; auto.
  apply submitGuess_cases in H.
  destruct H as [(_ & -> & _) | (_ & room & sol & _ & _ & _ & _ & _ & _ & C)]; auto.
  destruct C as [(_ & Ho & ->) | [(_ & _ & Ho & ->) | (_ & _ & _ & ->)]]; auto.
Qed.

Lemma type_keys_over (ks : list string) (pg : Page) (st : GameState) :
  pg_gameOver pg = true -> type_keys ks pg st = Done pg st [].
Proof.
  intro Ho. induction ks as [|k ks IH]; cbn [type_keys]; [reflexivity|].
  unfold handleKeyDown, handleKeyPress. rewrite Ho, IH. reflexivity.
Qed.

Lemma type_keys_appends (ks : list string) (pg pg' : Page) (st st' : GameState)
    (sent : list Emitted) :
  type_keys ks pg st = Done pg' st' sent ->
  pg_guesses pg' = pg_guesses pg ++ map em_guess sent /\
  List.length (pg_evaluations pg') = List.length (pg_evaluations pg) + List.length sent.
Proof.
  revert pg st sent. induction ks as [|k ks IH]; intros pg st sent H; cbn [type_keys] in H.
  - inversion H; subst. cbn. rewrite app_nil_r, Nat.add_0_r. split; reflexivity.
  - unfold handleKeyDown in H.
    destruct (handleKeyPress (js_toUpperCase k) pg st) as [pg1 st1 s1|] eqn:E1;
      [|discriminate].
    destruct (type_keys ks pg1 st1) as [pg2 st2 s2|] eqn:E2; [|discriminate].
    inversion H; subst.
    destruct (handleKeyPress_appends _ _ _ _ _ _ E1) as [G1 L1].
    destruct (IH _ _ _ E2) as [G2 L2].
    rewrite G2, G1, map_app, app_assoc, L2, L1, length_app. split; [reflexivity | lia].
Qed.

Lemma type_keys_store (ks : list string) (pg pg' : Page) (st st' : GameState)
    (sent : list Emitted) :
  type_keys ks pg st = Done pg' st' sent ->
  st' = st \/ st' = setGameStatus Finished st \/
  st' = setGameStatus Finished (setWinner (currentPlayer st) st).
Proof.
  intro H.
  assert (Inv : forall pg1 st1, (st1 = st \/ (pg_gameOver pg1 = true /\
      (st1 = setGameStatus Finished st \/
       st1 = setGameStatus Finished (setWinner (currentPlayer st) st)))) ->
      forall pg2 st2 s, type_keys ks pg1 st1 = Done pg2 st2 s ->
      st2 = st \/ (pg_gameOver pg2 = true /\
      (st2 = setGameStatus Finished st \/
       st2 = setGameStatus Finished (setWinner (currentPlayer st) st)))).
  { intros pg1 st1 HI pg2 st2 s Hk.
    refine (type_keys_preserve
      (fun p s0 => s0 = st \/ (pg_gameOver p = true /\
        (s0 = setGameStatus Finished st \/
         s0 = setGameStatus Finished (setWinner (currentPlayer st) st)))) _ ks pg1 st1 pg2 st2 s HI Hk).
    clear. intros k p s0 p' s0' snt HI Hk.
    destruct HI as [-> | [Ho Hs]].
    - exact (handleKeyPress_store _ _ _ _ _ _ Hk).
    - unfold handleKeyPress in Hk. rewrite Ho in Hk. inversion Hk; subst. right. auto. }
  destruct (Inv pg st (or_introl eq_refl) _ _ _ H) as [E | [_ [E | E]]]; auto.
Qed.

(** ** Extra properties of the game page *)

(** X12.  Typing on the page keeps the current guess at most five
    characters long, all of them capital letters [A-Z]. *)
Theorem keys_keep_guess_shape (ks : list string) (pg pg' : Page) (st st' : GameState)
    (sent : list Emitted) :
  guess_shape_ok pg -> type_keys ks pg st = Done pg' st' sent -> guess_shape_ok pg'.
Proof.
  intros H0 H.
  exact (type_keys_preserve (fun p _ => guess_shape_ok p)
           (fun k p s p' s' snt Hp Hk => handleKeyPress_shape k p p' s s' snt Hp Hk)
           ks pg st pg' st' sent H0 H).
Qed.

Lemma keys_keep_guess_shape_witness :
  guess_shape_ok (mk_page "AB" [] [] false "").
Proof.
  apply (keys_keep_guess_shape ["a"; "b"; "1"] page0 (mk_page "AB" [] [] false "")
           st_duel st_duel []).
  - unfold guess_shape_ok, page0, mk_page. cbn. split; [lia | reflexivity].
  - vm_compute. reflexivity.
Defined.

(** X13.  Typing never records more than six guesses, and while the game
    is not over at most five are recorded. *)
Theorem keys_keep_guess_cap (ks : list string) (pg pg' : Page) (st st' : GameState)
    (sent : list Emitted) :
  guess_cap_ok pg -> type_keys ks pg st = Done pg' st' sent -> guess_cap_ok pg'.
Proof.
  intros H0 H.
  exact (type_keys_preserve (fun p _ => guess_cap_ok p)
           (fun k p s p' s' snt Hp Hk => handleKeyPress_cap k p p' s s' snt Hp Hk)
           ks pg st pg' st' sent H0 H).
Qed.

Lemma keys_keep_guess_cap_witness :
  exists pg' st' sent,
    type_keys (keys_of "SLATE" ++ ["ENTER"]) page_five_misses st_duel = Done pg' st' sent /\
    guess_cap_ok pg'.
Proof.
  destruct (type_keys (keys_of "SLATE" ++ ["ENTER"]) page_five_misses st_duel)
    as [pg' st' sent|] eqn:E; [|vm_compute in E; discriminate E].
  exists pg', st', sent. split; [reflexivity|].
  apply (keys_keep_guess_cap (keys_of "SLATE" ++ ["ENTER"]) page_five_misses pg' st_duel st' sent).
  - unfold guess_cap_ok, page_five_misses, mk_page. cbn. split; [lia | intros _; lia].
  - exact E.
Defined.

(** X14.  The guesses a key sequence adds to the page are exactly the
    guesses it sends to the server, in order, and each comes with one
    evaluation. *)
Theorem keys_record_sent_guesses (ks : list string) (pg pg' : Page) (st st' : GameState)
    (sent : list Emitted) :
  type_keys ks pg st = Done pg' st' sent ->
  pg_guesses pg' = pg_guesses pg ++ map em_guess sent /\
  List.length (pg_evaluations pg') = List.length (pg_evaluations pg) + List.length sent.
Proof. apply type_keys_appends. Qed.

Lemma keys_record_sent_guesses_witness :
  exists pg' st' sent,
    type_keys (keys_of "SLATE" ++ ["ENTER"] ++ keys_of "CRANE" ++ ["ENTER"]) page0 st_duel
      = Done pg' st' sent /\
    pg_guesses pg' = pg_guesses page0 ++ map em_guess sent /\
    List.length (pg_evaluations pg') = List.length (pg_evaluations page0) + List.length sent.
Proof.
  destruct (type_keys (keys_of "SLATE" ++ ["ENTER"] ++ keys_of "CRANE" ++ ["ENTER"]) page0 st_duel)
    as [pg' st' sent|] eqn:E; [|vm_compute in E; discriminate E].
  exists pg', st', sent. split; [reflexivity|].
  exact (keys_record_sent_guesses _ page0 pg' st_duel st' sent E).
Defined.

(** X15.  Once the page's game is over, no key sequence changes the page
    or the store, and nothing is sent. *)
Theorem keys_ignored_after_game_over (ks : list string) (pg : Page) (st : GameState) :
  pg_gameOver pg = true -> type_keys ks pg st = Done pg st [].
Proof. apply type_keys_over. Qed.

Lemma keys_ignored_after_game_over_witness :
  type_keys (keys_of "CRANE" ++ ["ENTER"]) (mk_page "" [] [] true "") st_duel
    = Done (mk_page "" [] [] true "") st_duel [].
Proof. apply keys_ignored_after_game_over. reflexivity. Defined.

(** X16.  The only store changes the keyboard makes are to mark the game
    finished, possibly after recording the current player as winner. *)
Theorem keys_store_effect (ks : list string) (pg pg' : Page) (st st' : GameState)
    (sent : list Emitted) :
  type_keys ks pg st = Done pg' st' sent ->
  st' = st \/ st' = setGameStatus Finished st \/
  st' = setGameStatus Finished (setWinner (currentPlayer st) st).
Proof. apply type_keys_store. Qed.

Lemma keys_store_effect_witness :
  exists pg' st' sent,
    type_keys (keys_of "CRANE" ++ ["ENTER"]) page0 st_duel = Done pg' st' sent /\
    (st' = st_duel \/ st' = setGameStatus Finished st_duel \/
     st' = setGameStatus Finished (setWinner (currentPlayer st_duel) st_duel)).
Proof.
  destruct (type_keys (keys_of "CRANE" ++ ["ENTER"]) page0 st_duel)
    as [pg' st' sent|] eqn:E; [|vm_compute in E; discriminate E].
  exists pg', st', sent. split; [reflexivity|].
  exact (keys_store_effect _ page0 pg' st_duel st' sent E).
Defined.

(** X17.  The [guess-submitted] listener only touches the board: it
    leaves the store, the current guess, the game-over flag and the
    message alone and sends nothing; it either leaves the page as it was,
    or keeps the recorded guesses and evaluations and appends the received
    guess and its evaluation against the room's solution word; and it
    ignores the player's own guesses. *)
Theorem onGuessSubmitted_board_only (u g : string) (pg pg' : Page) (st st' : GameState)
    (sent : list Emitted) :
  onGuessSubmitted u g pg st = Done pg' st' sent ->
  st' = st /\ sent = [] /\
  pg_currentGuess pg' = pg_currentGuess pg /\ pg_gameOver pg' = pg_gameOver pg /\
  pg_message pg' = pg_message pg /\
  (pg' = pg \/
   exists room sol,
     currentRoom st = Some room /\ solutionWord room = Some sol /\
     pg_guesses pg' = pg_guesses pg ++ [g] /\
     pg_evaluations pg' = pg_evaluations pg ++ [evaluateGuess g sol]) /\
  (currentPlayer st = Some u -> pg' = pg).
Proof.
  unfold onGuessSubmitted. intro H.
  destruct (currentRoom st) as [room|] eqn:Hr; [|inversion H; subst; repeat split; auto].
  destruct (currentPlayer st) as [v|] eqn:Hp.
  - destruct (String.eqb_spec u v) as [->|Hne]; cbn [negb] in H.
    + inversion H; subst. repeat split; auto.
    + destruct (solutionWord room) as [sol|] eqn:Hs; [|discriminate H].
      inversion H; subst. cbn. repeat split; auto.
      * right. exists room, sol. auto.
      * intro E. inversion E. congruence.
  - destruct (solutionWord room) as [sol|] eqn:Hs; [|discriminate H].
    inversion H; subst. cbn. repeat split; auto.
    + right. exists room, sol. auto.
    + discriminate.
Qed.

Lemma onGuessSubmitted_board_only_witness :
  exists pg' st' sent,
    onGuessSubmitted "bob" "SLATE" page0 st_duel = Done pg' st' sent /\
    pg_guesses pg' = ["SLATE"] /\ pg_evaluations pg' = [evaluateGuess "SLATE" "CRANE"].
Proof.
  destruct (onGuessSubmitted "bob" "SLATE" page0 st_duel) as [pg' st' sent|] eqn:E;
    [|vm_compute in E; discriminate E].
  exists pg', st', sent. split; [reflexivity|].
  destruct (onGuessSubmitted_board_only "bob" "SLATE" page0 pg' st_duel st' sent E)
    as (_ & _ & _ & _ & _ & [Eq | (room & sol & Hr & Hs & G & Ev)] & _).
  - subst pg'. vm_compute in E. discriminate E.
  - vm_compute in Hr. inversion Hr; subst room. vm_compute in Hs. inversion Hs; subst sol.
    split; [exact G | exact Ev].
Defined.

(** X18.  After the [game-over] event the page is over and the store is
    finished with the announced winner; from then on no key sequence
    changes the page or the store, and nothing is sent. *)
Theorem game_over_event_freezes_keys (w : option string) (pg : Page) (st : GameState)
    (ks : list string) :
  exists pg1 st1,
    onGameOver w pg st = Done pg1 st1 [] /\
    pg_gameOver pg1 = true /\ gameStatus st1 = Finished /\ winner st1 = w /\
    type_keys ks pg1 st1 = Done pg1 st1 [].
Proof.
  eexists; eexists. split; [reflexivity|].
  split; [reflexivity|]. split; [reflexivity|]. split; [reflexivity|].
  apply type_keys_over. reflexivity.
Qed.

Lemma scan_row_nil (key : string) (ev : list (option Verdict)) : scan_row key [] ev = None.
Proof. induction ev as [|v ev IH]; [reflexivity | exact IH]. Qed.

Lemma scan_row_none (c : ascii) (row : list ascii) (ev : list (option Verdict)) :
  scan_row (String c EmptyString) row ev = None <->
  (forall j, j < List.length ev -> nth_error row j <> Some c).
Proof.
  revert row. induction ev as [|v ev IH]; intro row; cbn [scan_row].
  - split; [intros _ j Hj; cbn in Hj; lia | reflexivity].
  - destruct row as [|a row].
    + rewrite scan_row_nil. split; [intros _ j _; destruct j; discriminate | reflexivity].
    + rewrite eqb_one_char. destruct (ascii_dec a c) as [->|Hne].
      * split; [discriminate|]. intro H. exfalso. apply (H 0); [cbn; lia | reflexivity].
      * rewrite IH. split.
        -- intros H [|j] Hj; cbn; [congruence|]. apply H. cbn in Hj. lia.
        -- intros H j Hj. apply (H (S j)). cbn. lia.
Qed.

Lemma getKeyStatus_cons (key g : string) (gs : list string) (ev : list (option Verdict))
    (evs : list (list (option Verdict))) :
  getKeyStatus key (g :: gs) (ev :: evs) =
  match scan_row key (list_ascii_of_string g) ev with
  | Some v => KeyFound v
  | None => getKeyStatus key gs evs
  end.
Proof. destruct ev; reflexivity. Qed.

Lemma getKeyStatus_unused (c : ascii) (gs : list string) (evs : list (list (option Verdict))) :
  List.length evs <= List.length gs ->
  getKeyStatus (String c EmptyString) gs evs <> KeyThrows /\
  (getKeyStatus (String c EmptyString) gs evs = KeyUnused <->
   forall i g ev j, nth_error gs i = Some g -> nth_error evs i = Some ev ->
     j < List.length ev -> nth_error (list_ascii_of_string g) j <> Some c).
Proof.
  revert gs. induction evs as [|ev evs IH]; intros gs Hl.
  - split; [discriminate|]. split; [|reflexivity].
    intros _ i g ev j _ E. destruct i; discriminate E.
  - destruct gs as [|g gs]; [cbn in Hl; lia|]. cbn in Hl.
    rewrite getKeyStatus_cons.
    destruct (scan_row (String c EmptyString) (list_ascii_of_string g) ev) as [v|] eqn:Hs.
    + split; [discriminate|]. split; [discriminate|].
      intro H. exfalso.
      assert (Hn : scan_row (String c EmptyString) (list_ascii_of_string g) ev = None).
      { apply scan_row_none. intros j Hj. exact (H 0 g ev j eq_refl eq_refl Hj). }
      congruence.
    + destruct (IH gs ltac:(lia)) as [IH1 IH2]. split; [exact IH1|]. rewrite IH2. split.
      * intros H [|i] g' ev' j E1 E2 Hj.
        -- cbn in E1, E2. inversion E1; inversion E2; subst.
           exact (proj1 (scan_row_none c _ _) Hs j Hj).
        -- exact (H i g' ev' j E1 E2 Hj).
      * intros H i g' ev' j E1 E2 Hj. exact (H (S i) g' ev' j E1 E2 Hj).
Qed.

(** X19.  When there are at least as many guesses as evaluation rows, as
    on the page, the key colouring of a letter never throws, and it is
    ['unused'] exactly when no recorded guess has that letter at an
    evaluated position. *)
Theorem getKeyStatus_unused_iff (c : ascii) (gs : list string)
    (evs : list (list (option Verdict))) :
  List.length evs <= List.length gs ->
  getKeyStatus (String c EmptyString) gs evs <> KeyThrows /\
  (getKeyStatus (String c EmptyString) gs evs = KeyUnused <->
   forall i g ev j, nth_error gs i = Some g -> nth_error evs i = Some ev ->
     j < List.length ev -> nth_error (list_ascii_of_string g) j <> Some c).
Proof. apply getKeyStatus_unused. Qed.

Lemma getKeyStatus_unused_iff_witness :
  getKeyStatus "Z" ["SLATE"] [evaluateGuess "SLATE" "CRANE"] <> KeyThrows /\
  (getKeyStatus "Z" ["SLATE"] [evaluateGuess "SLATE" "CRANE"] = KeyUnused <->
   forall i g ev j, nth_error ["SLATE"] i = Some g ->
     nth_error [evaluateGuess "SLATE" "CRANE"] i = Some ev ->
     j < List.length ev -> nth_error (list_ascii_of_string g) j <> Some "Z"%char).
Proof. apply getKeyStatus_unused_iff. cbn. lia. Defined.

Lemma scan_row_some (c : ascii) (row : list ascii) (ev : list (option Verdict))
    (v : option Verdict) :
  scan_row (String c EmptyString) row ev = Some v ->
  exists j, nth_error row j = Some c /\ nth_error ev j = Some v.
Proof.
  revert row. induction ev as [|w ev IH]; intros row H; cbn [scan_row] in H; [discriminate|].
  destruct row as [|a row].
  - rewrite scan_row_nil in H. discriminate.
  - rewrite eqb_one_char in H. destruct (ascii_dec a c) as [->|Hne].
    + inversion H; subst. exists 0. split; reflexivity.
    + destruct (IH row H) as [j Hj]. exists (S j). exact Hj.
Qed.

Lemma getKeyStatus_found_sound (c : ascii) (gs : list string)
    (evs : list (list (option Verdict))) (v : option Verdict) :
  getKeyStatus (String c EmptyString) gs evs = KeyFound v ->
  exists i g ev j, nth_error gs i = Some g /\ nth_error evs i = Some ev /\
    nth_error (list_ascii_of_string g) j = Some c /\ nth_error ev j = Some v.
Proof.
  revert gs. induction evs as [|ev evs IH]; intros gs H; [discriminate|].
  destruct gs as [|g gs].
  - destruct ev; [|discriminate]. cbn in H.
    destruct (IH [] H) as (i & g' & ev' & j & Hj1 & _). destruct i; discriminate Hj1.
  - rewrite getKeyStatus_cons in H.
    destruct (scan_row (String c EmptyString) (list_ascii_of_string g) ev) as [w|] eqn:Hs.
    + inversion H; subst. destruct (scan_row_some _ _ _ _ Hs) as [j [Hj1 Hj2]].
      exists 0, g, ev, j. auto.
    + destruct (IH gs H) as (i & g' & ev' & j & Hj). exists (S i), g', ev', j. exact Hj.
Qed.

(** X20.  A letter key that gets a colour gets the evaluation slot of a
    position where some recorded guess has that letter. *)
Theorem getKeyStatus_found_at_letter (c : ascii) (gs : list string)
    (evs : list (list (option Verdict))) (v : option Verdict) :
  getKeyStatus (String c EmptyString) gs evs = KeyFound v ->
  exists i g ev j, nth_error gs i = Some g /\ nth_error evs i = Some ev /\
    nth_error (list_ascii_of_string g) j = Some c /\ nth_error ev j = Some v.
Proof. apply getKeyStatus_found_sound. Qed.

Lemma getKeyStatus_found_at_letter_witness :
  exists i g ev j, nth_error ["SLATE"; "CRANE"] i = Some g /\
    nth_error [evaluateGuess "SLATE" "CRANE"; evaluateGuess "CRANE" "CRANE"] i = Some ev /\
    nth_error (list_ascii_of_string g) j = Some "E"%char /\ nth_error ev j = Some (Some Correct).
Proof.
  apply (getKeyStatus_found_at_letter "E" ["SLATE"; "CRANE"]
           [evaluateGuess "SLATE" "CRANE"; evaluateGuess "CRANE" "CRANE"] (Some Correct)).
  vm_compute. reflexivity.
Defined.

(** ** [formatTime] *)

Lemma nat_of_digit_char (d : nat) : d < 10 -> nat_of_ascii (digit_char d) = 48 + d.
Proof. intro H. unfold digit_char. apply nat_ascii_embedding. lia. Qed.

Lemma is_digit_digit_char (d : nat) : d < 10 -> is_digit (digit_char d) = true.
Proof.
  intro H. unfold is_digit. rewrite (nat_of_digit_char d H).
  apply andb_true_intro. split; apply Nat.leb_le; lia.
Qed.

Lemma digits_value_snoc (l : list ascii) (c : ascii) :
  digits_value (l ++ [c]) = digits_value l * 10 + (nat_of_ascii c - 48).
Proof. unfold digits_value. rewrite fold_left_app. reflexivity. Qed.

Lemma dec_digits_spec (fuel n : nat) :
  n < fuel ->
  digits_value (dec_digits fuel n) = n /\
  forallb is_digit (dec_digits fuel n) = true /\
  1 <= List.length (dec_digits fuel n) /\
  (n < 10 -> List.length (dec_digits fuel n) = 1) /\
  (n < 100 -> List.length (dec_digits fuel n) <= 2).
Proof.
  revert n. induction fuel as [|f IH]; intros n Hn; [lia|].
  pose proof (Nat.div_mod n 10 ltac:(lia)) as Hdm.
  pose proof (Nat.mod_upper_bound n 10 ltac:(lia)) as Hmb.
  cbn [dec_digits]. rewrite digits_value_snoc, forallb_app, length_app.
  cbn [forallb List.length]. rewrite (nat_of_digit_char _ Hmb), (is_digit_digit_char _ Hmb).
  destruct (Nat.ltb_spec n 10) as [L|L].
  - rewrite (Nat.mod_small n 10 L). cbn. repeat split; lia.
  - assert (Hq : n / 10 < f) by lia.
    destruct (IH (n / 10) Hq) as (V & D & L1 & L10 & _).
    rewrite V, D. cbn [andb]. repeat split; lia.
Qed.

Lemma digits_value_zeros (k : nat) (l : list ascii) :
  digits_value (repeat "0"%char k ++ l) = digits_value l.
Proof.
  unfold digits_value. rewrite fold_left_app. f_equal.
  induction k as [|k IH]; [reflexivity|]. cbn [repeat fold_left]. exact IH.
Qed.

Lemma list_ascii_padStart0 (s : string) :
  list_ascii_of_string (padStart 2 "0" s) =
  repeat "0"%char (2 - String.length s) ++ list_ascii_of_string s.
Proof.
  unfold padStart. destruct (Nat.leb_spec 2 (String.length s)) as [L|L].
  - replace (2 - String.length s) with 0 by lia. reflexivity.
  - rewrite list_ascii_of_string_append, list_ascii_of_string_of_list_ascii. reflexivity.
Qed.

Lemma padded_number (n : nat) :
  let l := list_ascii_of_string (padStart 2 "0" (number_toString n)) in
  digits_value l = n /\ forallb is_digit l = true /\ 2 <= List.length l /\
  (n < 100 -> List.length l = 2).
Proof.
  cbn zeta. rewrite list_ascii_padStart0. unfold number_toString.
  rewrite <- length_list_ascii_of_string, list_ascii_of_string_of_list_ascii.
  destruct (dec_digits_spec (S n) n ltac:(lia)) as (V & D & L1 & _ & L100).
  rewrite digits_value_zeros, V, forallb_app, D, length_app, repeat_length.
  replace (forallb is_digit (repeat "0"%char (2 - List.length (dec_digits (S n) n)))) with true.
  2: { symmetry. apply forallb_forall. intros x Hx. apply repeat_spec in Hx. subst x.
       reflexivity. }
  repeat split; lia.
Qed.

(** X21.  [formatTime] gives two or more digits of minutes, a colon and
    exactly two digits of seconds; read back, they give the number of
    seconds, with fewer than 60 in the seconds field, and the minutes
    field is exactly two digits below 100 minutes. *)
Theorem formatTime_round_trip (s : nat) :
  exists mm ss,
    list_ascii_of_string (formatTime s) = mm ++ ":"%char :: ss /\
    List.length ss = 2 /\ 2 <= List.length mm /\
    forallb is_digit mm = true /\ forallb is_digit ss = true /\
    digits_value mm * 60 + digits_value ss = s /\ digits_value ss < 60 /\
    (s < 100 * 60 -> List.length mm = 2).
Proof.
  pose proof (Nat.div_mod s 60 ltac:(lia)) as Hdm.
  pose proof (Nat.mod_upper_bound s 60 ltac:(lia)) as Hmb.
  destruct (padded_number (s / 60)) as (Vm & Dm & Lm & Lm2).
  destruct (padded_number (s mod 60)) as (Vs & Ds & Ls & Ls2).
  eexists; eexists. split.
  - unfold formatTime. rewrite !list_ascii_of_string_append. reflexivity.
  - rewrite Vm, Vs. repeat split; try assumption; try lia.
    all: try (apply Ls2; lia).
Qed.

(** ** The Scoreboard order *)

Definition cmp_le (a b : Player) : Prop := (scoreboard_cmp a b <= 0)%Z.

Ltac player_flags a b :=
  unfold cmp_le, scoreboard_cmp in *;
  destruct (has_won a), (has_won b), (is_eliminated a), (is_eliminated b); cbn in *.

Lemma scoreboard_cmp_antisym (a b : Player) : scoreboard_cmp b a = (- scoreboard_cmp a b)%Z.
Proof. player_flags a b; lia. Qed.

Lemma cmp_le_trans (a b c : Player) : cmp_le a b -> cmp_le b c -> cmp_le a c.
Proof.
  intros H1 H2. unfold cmp_le, scoreboard_cmp in *.
  destruct (has_won a), (has_won b), (has_won c), (is_eliminated a), (is_eliminated b),
    (is_eliminated c); cbn in *; lia.
Qed.

Lemma cmp_le_board_before (a b : Player) : cmp_le a b -> board_before a b.
Proof.
  intro H. unfold board_before. player_flags a b;
    repeat split; intros; try congruence; try discriminate; lia.
Qed.

Lemma insert_by_hd (x y : Player) (ys : list Player) :
  HdRel cmp_le y ys -> cmp_le y x -> HdRel cmp_le y (insert_by x ys).
Proof.
  intros H Hx. destruct ys as [|z zs]; cbn [insert_by].
  - constructor. exact Hx.
  - destruct (0 <? scoreboard_cmp z x)%Z; constructor; [exact Hx|]. inversion H. assumption.
Qed.

Lemma insert_by_sorted (x : Player) (l : list Player) :
  Sorted cmp_le l -> Sorted cmp_le (insert_by x l).
Proof.
  induction l as [|y ys IH]; intro H; cbn [insert_by].
  - repeat constructor.
  - destruct (Z.ltb_spec 0 (scoreboard_cmp y x)) as [L|L].
    + constructor; [exact H|]. constructor. unfold cmp_le.
      pose proof (scoreboard_cmp_antisym x y). lia.
    + inversion H; subst. constructor; [apply IH; assumption|].
      apply insert_by_hd; assumption.
Qed.

Lemma insert_by_perm (x : Player) (l : list Player) : Permutation (x :: l) (insert_by x l).
Proof.
  induction l as [|y ys IH]; cbn [insert_by]; [reflexivity|].
  destruct (0 <? scoreboard_cmp y x)%Z; [reflexivity|].
  transitivity (y :: x :: ys); [apply perm_swap | constructor; exact IH].
Qed.

Lemma fold_insert_sorted (l acc : list Player) :
  Sorted cmp_le acc ->
  Sorted cmp_le (fold_left (fun acc p => insert_by p acc) l acc) /\
  Permutation (acc ++ l) (fold_left (fun acc p => insert_by p acc) l acc).
Proof.
  revert acc. induction l as [|x l IH]; intros acc H; cbn [fold_left].
  - rewrite app_nil_r. split; [exact H | reflexivity].
  - destruct (IH (insert_by x acc) (insert_by_sorted x acc H)) as [S P]. split; [exact S|].
    rewrite <- P. rewrite <- Permutation_middle.
    apply (Permutation_app_tail l (insert_by_perm x acc)).
Qed.

Lemma strongly_sorted_weaken {A} (R1 R2 : A -> A -> Prop) (l : list A) :
  (forall a b, R1 a b -> R2 a b) -> StronglySorted R1 l -> StronglySorted R2 l.
Proof.
  intros HR H. induction H as [|a l H IH HF]; constructor; [exact IH|].
  eapply Forall_impl; [|exact HF]. intros b. apply HR.
Qed.

(** X22.  The Scoreboard lists every player once, winners before everyone
    else; among players with the same [won], those still in before the
    eliminated ones; and among players equal on both, lower scores first. *)
Theorem sortedPlayers_order (players : list Player) :
  Permutation players (sortedPlayers players) /\
  StronglySorted board_before (sortedPlayers players).
Proof.
  destruct (fold_insert_sorted players [] (Sorted_nil _)) as [S P].
  split; [exact P|].
  apply (strongly_sorted_weaken cmp_le); [exact cmp_le_board_before|].
  apply Sorted_StronglySorted; [|exact S].
  intros a b c. apply cmp_le_trans.
Qed.

(** ** The lobby page *)

(** X23.  A successful room creation makes the trimmed user name the
    current player and the host, stores the new room, which is waiting and
    has the host as its only player, clears the error, and leaves the
    store's player lists consistent with that room. *)
Theorem handleCreateRoom_success (createRoom : string -> Mode -> option string)
    (username : string) (selectedMode : Mode) (st : GameState) (c : string) :
  js_trim username <> "" ->
  createRoom (js_trim username) selectedMode = Some c ->
  let r := handleCreateRoom createRoom username selectedMode st in
  snd r = "" /\
  currentRoom (fst r) = Some (newRoom (js_trim username) c selectedMode) /\
  hostId (newRoom (js_trim username) c selectedMode) = js_trim username /\
  currentPlayer (fst r) = Some (js_trim username) /\ isHost (fst r) = true /\
  mode (fst r) = selectedMode /\ gameStatus (fst r) = Waiting /\
  map id (activePlayers (fst r)) = [js_trim username] /\ eliminatedPlayers (fst r) = [] /\
  lists_derived (fst r).
Proof.
  intros Hu Hc. cbv zeta. unfold handleCreateRoom.
  destruct (String.eqb_spec (js_trim username) "") as [E|_]; [contradiction|].
  rewrite Hc. cbn. repeat split; reflexivity.
Qed.

Lemma handleCreateRoom_success_witness :
  let r := handleCreateRoom (api_ok "QX7K2P") "  alice " Duel initialState in
  snd r = "" /\
  currentRoom (fst r) = Some (newRoom (js_trim "  alice ") "QX7K2P" Duel) /\
  hostId (newRoom (js_trim "  alice ") "QX7K2P" Duel) = js_trim "  alice " /\
  currentPlayer (fst r) = Some (js_trim "  alice ") /\ isHost (fst r) = true /\
  mode (fst r) = Duel /\ gameStatus (fst r) = Waiting /\
  map id (activePlayers (fst r)) = [js_trim "  alice "] /\ eliminatedPlayers (fst r) = [] /\
  lists_derived (fst r).
Proof.
  apply (handleCreateRoom_success (api_ok "QX7K2P") "  alice " Duel initialState "QX7K2P").
  - vm_compute. discriminate.
  - reflexivity.
Defined.

Lemma string_eqb_empty (s : string) : String.eqb s "" = (String.length s =? 0).
Proof. destruct s; reflexivity. Qed.

(** X24.  Joining a room either leaves the store untouched and shows a
    non-empty error, or clears the error, stores the room the server
    returned for the trimmed, upper-cased code, and makes the trimmed user
    name the current player, not the host, with the room's mode and status
    and player lists consistent with the room. *)
Theorem handleJoinRoom_outcome (joinRoom : string -> string -> Room + option string)
    (username roomCode : string) (st : GameState) :
  let r := handleJoinRoom joinRoom username roomCode st in
  (fst r = st /\ snd r <> "") \/
  (snd r = "" /\
   exists room,
     joinRoom (js_toUpperCase (js_trim roomCode)) (js_trim username) = inl room /\
     currentRoom (fst r) = Some room /\ currentPlayer (fst r) = Some (js_trim username) /\
     isHost (fst r) = false /\ mode (fst r) = room_mode room /\
     gameStatus (fst r) = status room /\ lists_derived (fst r)).
Proof.
  cbv zeta. unfold handleJoinRoom.
  destruct (String.eqb (js_trim username) "" || String.eqb (js_trim roomCode) "").
  - left. split; [reflexivity | discriminate].
  - destruct (joinRoom (js_toUpperCase (js_trim roomCode)) (js_trim username)) as [room|m].
    + right. split; [reflexivity|]. exists room. cbn. repeat split; reflexivity.
    + left. split; [reflexivity|]. cbn [snd].
      destruct m as [msg|]; [|discriminate].
      destruct (String.eqb_spec msg "") as [_|Hne]; [discriminate | exact Hne].
Qed.

(** X25.  The room code is only used trimmed and upper-cased: two codes
    that agree after trimming and upper-casing give the same result. *)
Theorem handleJoinRoom_code_normalized (joinRoom : string -> string -> Room + option string)
    (username c1 c2 : string) (st : GameState) :
  js_toUpperCase (js_trim c1) = js_toUpperCase (js_trim c2) ->
  handleJoinRoom joinRoom username c1 st = handleJoinRoom joinRoom username c2 st.
Proof.
  intro H. unfold handleJoinRoom.
  assert (E : String.eqb (js_trim c1) "" = String.eqb (js_trim c2) "").
  { rewrite !string_eqb_empty, <- (length_js_toUpperCase (js_trim c1)),
      <- (length_js_toUpperCase (js_trim c2)), H. reflexivity. }
  rewrite E, H. reflexivity.
Qed.

Lemma handleJoinRoom_code_normalized_witness :
  handleJoinRoom (fun c _ => if String.eqb c "ABC123" then inl duel_room else inr None)
    "bob" " abc123 " initialState =
  handleJoinRoom (fun c _ => if String.eqb c "ABC123" then inl duel_room else inr None)
    "bob" "ABC123" initialState.
Proof. apply handleJoinRoom_code_normalized. vm_compute. reflexivity. Defined.

(** ** [validateWord]'s suggestions *)

Lemma in_firstn_in {A} (n : nat) (l : list A) (x : A) : In x (firstn n l) -> In x l.
Proof.
  revert n. induction l as [|y l IH]; intros [|n] H; cbn in H; try contradiction.
  destruct H as [->|H]; [left; reflexivity | right; exact (IH n H)].
Qed.

(** X26.  [validateWord] suggests at most eight words, all from the word
    list, and suggests any only for a five-letter, all-capital word that
    is not in the list. *)
Theorem validateWord_suggestions (validWords : list string) (w : string) :
  let v := validateWord validWords w in
  List.length (searchResults v) <= 8 /\ incl (searchResults v) validWords /\
  (searchResults v <> [] ->
   String.length w = 5 /\ forallb is_upper (list_ascii_of_string w) = true /\
   ~ In w validWords).
Proof.
  cbv zeta. unfold validateWord.
  destruct (String.eqb w "") eqn:E0.
  { cbn. split; [lia|]. split; [intros x []|]. intro H; contradiction H; reflexivity. }
  destruct (Nat.eqb_spec (String.length w) 5) as [L|L]; cbn [negb].
  2: { cbn. split; [lia|]. split; [intros x []|]. intro H; contradiction H; reflexivity. }
  destruct (all_upper_nonempty w) eqn:U; cbn [negb].
  2: { cbn. split; [lia|]. split; [intros x []|]. intro H; contradiction H; reflexivity. }
  destruct (existsb (String.eqb w) validWords) eqn:X.
  { cbn. split; [lia|]. split; [intros x []|]. intro H; contradiction H; reflexivity. }
  cbn [searchResults mk_validation]. split; [|split].
  - rewrite length_firstn. lia.
  - intros x Hx. apply in_firstn_in in Hx. apply filter_In in Hx. exact (proj1 Hx).
  - intros _. unfold all_upper_nonempty in U. apply andb_prop in U as [_ U].
    split; [exact L|]. split; [exact U|].
    intro Hin. apply existsb_eqb_In in Hin. congruence.
Qed.
